(** * mcp-rag-agent: the semantic retrieval engine

    A shallow embedding of
      - [mcp_rag_agent/embeddings/embedding_generator.py] (EmbeddingGenerator),
      - [mcp_rag_agent/mongodb/client.py]                 (MongoDBClient),
      - [mcp_rag_agent/embeddings/semantic_search.py]     (SemanticSearch),
      - [mcp_rag_agent/embeddings/index_documents.py]     (the bulk indexing loop),
    followed by the properties of the specification that concern them.

    The Python objects are mutable and talk to two remote services (the
    embedding API and the MongoDB server).  Both are modelled by a [World]
    that records what was sent to them, and an environment [Env] of oracles
    that says how they answer.  Methods are computations in a state and
    exception monad [M]. *)

From Stdlib Require Import ZArith SpecFloat.
From stdpp Require Import base option list sorting gmap strings pretty.

Local Open Scope string_scope.
Local Open Scope Z_scope.
Local Open Scope list_scope.

(** ** Python values *)

(** A Python [float] is an IEEE-754 binary64 number.  No arithmetic is done
    on embeddings here; they are carried from the service to the store. *)
Abbreviation float := spec_float.

(** [dict[str, Any]] values, as a tagged union.  Dictionaries are finite maps
    keyed by strings; a BSON ObjectId and a datetime are kept abstract. *)
#[warnings="-register-all"]
Inductive value : Type :=
  | VNone
  | VBool (b : bool)
  | VInt (z : Z)
  | VFloat (x : float)
  | VStr (s : string)
  | VObjectId (n : nat)
  | VDatetime (t : nat)
  | VList (l : list value)
  | VDict (d : gmap string value).

(** A document / record is a Python [dict[str, Any]]. *)
Abbreviation record := (gmap string value).

(** An embedding is a [list[float]]; stored in a record it is a list value. *)
Definition embedding_value (e : list float) : value := VList (VFloat <$> e).

(** ** Exceptions *)

(** The exception classes that occur.  [KeyboardInterrupt] and
    [CancelledError] derive from [BaseException] only; all others derive
    from [Exception]. *)
Inductive exn_class : Type :=
  | KeyboardInterrupt
  | CancelledError
  | IndexError
  | TypeError
  | AttributeError
  | OSError
  | UnicodeDecodeError
  | APIError            (* openai.OpenAIError and subclasses *)
  | PyMongoError        (* pymongo.errors.PyMongoError and subclasses *)
  | CollectionInvalid
  | InvalidName.        (* pymongo.errors.InvalidName *)

Record exn : Type := Exn { exn_cls : exn_class; exn_msg : string }.

(** [isinstance(e, Exception)] *)
Definition is_Exception (e : exn) : bool :=
  match exn_cls e with
  | KeyboardInterrupt | CancelledError => false
  | _ => true
  end.

Inductive outcome (A : Type) : Type :=
  | Ok (a : A)
  | Raise (e : exn).
Arguments Ok {A} a.
Arguments Raise {A} e.

Definition is_Ok {A} (o : outcome A) : bool :=
  match o with Ok _ => true | Raise _ => false end.

(** The list a call returned; empty if it raised. *)
Definition returned {A} (o : outcome (list A)) : list A :=
  match o with Ok l => l | Raise _ => [] end.

(** ** The embedding service *)

(** [input=] of [client.embeddings.create]: one text or a list of texts. *)
Inductive embedding_input : Type :=
  | InputOne (text : value)
  | InputMany (texts : list value).

Record embeddings_request : Type := EmbeddingsRequest {
  req_model : string;
  req_input : embedding_input;
  req_dimensions : Z
}.

(** An item of [response.data]: the embedding and the position of its text
    in the request. *)
Record embedding_item : Type := EmbeddingItem {
  index : Z;
  embedding : list float
}.

(** ** The MongoDB server *)

(** The [$vectorSearch] stage built by [vector_search]. *)
Record vector_search_stage : Type := VectorSearchStage {
  vs_index : string;
  vs_path : string;
  vs_queryVector : list float;
  vs_numCandidates : Z;
  vs_limit : Z;
  vs_filter : option record
}.

Inductive pipeline_stage : Type :=
  | StageVectorSearch (s : vector_search_stage)
  | StageAddFieldsScore.        (* {"$addFields": {"score": {"$meta": "vectorSearchScore"}}} *)

Record index_definition : Type := IndexDefinition {
  idx_name : string;
  idx_path : string;
  idx_numDimensions : Z;
  idx_similarity : string
}.

(** Requests sent to the server through a pymongo collection or database. *)
Inductive store_op : Type :=
  | OpListCollectionNames
  | OpCreateCollection (c : string)   (* the existence check, then the command *)
  | OpInsertOne (c : string) (doc : record)
  | OpInsertMany (c : string) (docs : list record)
  | OpFind (c : string) (query : record) (limit : Z)
  | OpDeleteMany (c : string) (query : record)
  | OpCreateSearchIndex (c : string) (d : index_definition)
  | OpAggregate (c : string) (p : list pipeline_stage).

(** ** Logging *)

(** What the bulk indexing job prints, line by line. *)
Inductive event : Type :=
  | EvFolderMissing
  | EvNoTextFiles
  | EvFound (n : nat)
  | EvSkippingEmpty (name : string)
  | EvProcessing (name folder : string) (len : nat)
  | EvSavedDocument (id : string)
  | EvSavedVector (id : string)
  | EvError (name : string) (e : exn)
  | EvTraceback (e : exn)
  | EvComplete (indexed total : nat).

(** ** World, environment and program state *)

Record World : Type := MkWorld {
  api_calls : list embeddings_request;      (* sent to the embedding service *)
  next_handle : nat;                        (* MongoClient objects created so far *)
  open_handles : list nat;                  (* MongoClient objects not yet closed *)
  closed_handles : list nat;
  collections : gmap string (list record);  (* the database *)
  search_indexes : list (string * index_definition);
  server_calls : list store_op;             (* requests the server received *)
  next_oid : nat;
  clock : nat;
  stdout : list event
}.

(** A file found under the indexed folder: its path components relative to
    the folder (the last one is the file name) and [str(file_path.absolute())]. *)
Record Path : Type := MkPath {
  path_rel : list string;
  path_abs : string
}.

(** How the outside answers.  Every oracle is a function of the request. *)
Record Env : Type := MkEnv {
  (* openai: [client.embeddings.create(...)], giving [response.data] *)
  embeddings_create : embeddings_request → outcome (list embedding_item);
  (* pymongo: [MongoClient(uri)] may reject the URI *)
  MongoClient_new : string → option exn;
  (* a request the server rejects, or that is lost with the connection *)
  server_fault : store_op → option exn;
  (* rows produced by [collection.aggregate(pipeline)] *)
  aggregate_rows : list pipeline_stage → list record → list record;
  (* rows produced by [collection.find(query).limit(limit)] *)
  find_rows : record → Z → list record → list record;
  (* does a stored record match a query filter *)
  query_match : record → record → bool;
  (* the builtin [str] *)
  py_str : value → string;
  (* [folder.exists()] and [list(folder.rglob("*.txt"))]: the text files
     under a folder; [None] when the folder does not exist *)
  rglob_txt : string → option (list Path);
  (* [open(file_path, 'r', encoding='utf-8').read()] *)
  read_text : Path → outcome string;
  (* [os.getenv(name)] *)
  getenv : string → option string
}.

(** [MongoDBClient]: the two cached handles are the mutable part. *)
Record MongoDBClient : Type := MkMongoDBClient {
  _uri : string;
  _database_name : string;
  _client : option nat;                 (* a MongoClient object *)
  _db : option (nat * string)           (* a Database object: client, name *)
}.

Record State : Type := MkState {
  mongo : MongoDBClient;
  world : World
}.

(** ** The monad *)

Definition M (A : Type) : Type := State → outcome A * State.

Definition ret {A} (a : A) : M A := λ st, (Ok a, st).

Definition bind {A B} (m : M A) (k : A → M B) : M B := λ st,
  match m st with
  | (Ok a, st') => k a st'
  | (Raise e, st') => (Raise e, st')
  end.

Definition raise {A} (e : exn) : M A := λ st, (Raise e, st).

Definition gets {A} (f : State → A) : M A := λ st, (Ok (f st), st).

Definition modify_world (f : World → World) : M unit := λ st,
  (Ok tt, MkState (mongo st) (f (world st))).

(** [try: body  except Exception as e: handler(e)].  An exception that is
    not an [Exception] passes through. *)
Definition try_except {A} (body : M A) (handler : exn → M A) : M A := λ st,
  match body st with
  | (Ok a, st') => (Ok a, st')
  | (Raise e, st') => if is_Exception e then handler e st' else (Raise e, st')
  end.

Declare Scope monad_scope.
Delimit Scope monad_scope with monad.
Notation "'let*' x ':=' m 'in' k" := (bind m (λ x, k))
  (at level 10, x name, m at level 100, k at level 200,
   format "'[v' 'let*'  x  ':='  m  'in' '/' k ']'") : monad_scope.
Notation "m ';;' k" := (bind m (λ _, k))
  (at level 100, k at level 200, right associativity) : monad_scope.
Local Open Scope monad_scope.

(** Updates of single [World] fields. *)
Definition log_api (r : embeddings_request) (w : World) : World :=
  MkWorld (api_calls w ++ [r]) (next_handle w) (open_handles w) (closed_handles w)
          (collections w) (search_indexes w) (server_calls w) (next_oid w)
          (clock w) (stdout w).

Definition log_server (op : store_op) (w : World) : World :=
  MkWorld (api_calls w) (next_handle w) (open_handles w) (closed_handles w)
          (collections w) (search_indexes w) (server_calls w ++ [op]) (next_oid w)
          (clock w) (stdout w).

Definition set_collections (cs : gmap string (list record)) (w : World) : World :=
  MkWorld (api_calls w) (next_handle w) (open_handles w) (closed_handles w)
          cs (search_indexes w) (server_calls w) (next_oid w)
          (clock w) (stdout w).

Definition set_next_oid (n : nat) (w : World) : World :=
  MkWorld (api_calls w) (next_handle w) (open_handles w) (closed_handles w)
          (collections w) (search_indexes w) (server_calls w) n
          (clock w) (stdout w).

Definition add_search_index (c : string) (d : index_definition) (w : World) : World :=
  MkWorld (api_calls w) (next_handle w) (open_handles w) (closed_handles w)
          (collections w) (search_indexes w ++ [(c, d)]) (server_calls w) (next_oid w)
          (clock w) (stdout w).

Definition open_handle (w : World) : World :=
  MkWorld (api_calls w) (S (next_handle w)) (next_handle w :: open_handles w)
          (closed_handles w)
          (collections w) (search_indexes w) (server_calls w) (next_oid w)
          (clock w) (stdout w).

Definition close_handle (h : nat) (w : World) : World :=
  MkWorld (api_calls w) (next_handle w)
          (filter (λ h', h' ≠ h) (open_handles w)) (h :: closed_handles w)
          (collections w) (search_indexes w) (server_calls w) (next_oid w)
          (clock w) (stdout w).

Definition tick (w : World) : World :=
  MkWorld (api_calls w) (next_handle w) (open_handles w) (closed_handles w)
          (collections w) (search_indexes w) (server_calls w) (next_oid w)
          (S (clock w)) (stdout w).

Definition print (ev : event) : M unit :=
  modify_world (λ w,
    MkWorld (api_calls w) (next_handle w) (open_handles w) (closed_handles w)
            (collections w) (search_indexes w) (server_calls w) (next_oid w)
            (clock w) (stdout w ++ [ev])).

(** ** Python builtins *)

(** [x or default] on an optional string: [None] and [""] are falsy. *)
Definition str_or (x : option string) (default : string) : string :=
  match x with
  | Some s => if bool_decide (s = "") then default else s
  | None => default
  end.

(** [x or {}] on an optional dict. *)
Definition dict_or_empty (x : option record) : record :=
  match x with
  | Some d => d
  | None => ∅
  end.

(** [x or default] on an optional int: [None] and [0] are falsy. *)
Definition int_or (x : option Z) (default : Z) : Z :=
  match x with
  | Some z => if bool_decide (z = 0) then default else z
  | None => default
  end.

(** [sorted(xs, key=key)]: Python's sort is stable, and any stable sort
    computes the same list; insertion from the right is one. *)
Section Sorted.
Context {A : Type} (key : A → Z).

Fixpoint insert_by_key (x : A) (l : list A) : list A :=
  match l with
  | [] => [x]
  | y :: l' => if bool_decide (key x ≤ key y) then x :: l
               else y :: insert_by_key x l'
  end.

Definition sorted (l : list A) : list A := foldr insert_by_key [] l.
End Sorted.

(** [zip(xs, ys)] stops at the shorter list. *)
Fixpoint zip {A B} (xs : list A) (ys : list B) : list (A * B) :=
  match xs, ys with
  | x :: xs', y :: ys' => (x, y) :: zip xs' ys'
  | _, _ => []
  end.

(** ** Text

    A Python [str] is a sequence of Unicode characters.  It is represented
    here by its UTF-8 encoding, a Rocq string being the list of its bytes:
    that is what a string literal of this file holds, and what
    [open(..., encoding='utf-8')] decodes.  A character takes one to four
    bytes; the bytes 128..191 occur as continuation bytes only. *)

Definition byte (c : Ascii.ascii) : nat := Ascii.nat_of_ascii c.

(** [c.isspace()] for the characters [str.strip()] removes, by the length
    of their encoding.  One byte: U+0009..U+000D, U+001C..U+0020. *)
Definition is_space (c : Ascii.ascii) : bool :=
  let n := byte c in
  ((9 <=? n)%nat && (n <=? 13)%nat) || ((28 <=? n)%nat && (n <=? 32)%nat).

(** Two bytes: U+0085 (C2 85) and U+00A0 (C2 A0). *)
Definition is_space2 (a b : Ascii.ascii) : bool :=
  (byte a =? 194)%nat && ((byte b =? 133)%nat || (byte b =? 160)%nat).

(** Three bytes: U+1680 (E1 9A 80), U+2000..U+200A (E2 80 80..8A),
    U+2028, U+2029 (E2 80 A8, A9), U+202F (E2 80 AF), U+205F (E2 81 9F)
    and U+3000 (E3 80 80). *)
Definition is_space3 (a b c : Ascii.ascii) : bool :=
  ((byte a =? 225)%nat && (byte b =? 154)%nat && (byte c =? 128)%nat)
  || ((byte a =? 226)%nat && (byte b =? 128)%nat
      && (((128 <=? byte c)%nat && (byte c <=? 138)%nat)
          || (byte c =? 168)%nat || (byte c =? 169)%nat || (byte c =? 175)%nat))
  || ((byte a =? 226)%nat && (byte b =? 129)%nat && (byte c =? 159)%nat)
  || ((byte a =? 227)%nat && (byte b =? 128)%nat && (byte c =? 128)%nat).

(** Remove the white-space characters a string begins with.  The tests
    [sp2] and [sp3] get the bytes of a character in reading order. *)
Fixpoint strip_from (sp2 : Ascii.ascii → Ascii.ascii → bool)
    (sp3 : Ascii.ascii → Ascii.ascii → Ascii.ascii → bool) (s : string)
    : string :=
  match s with
  | String a r =>
      if is_space a then strip_from sp2 sp3 r
      else
        match r with
        | String b r' =>
            if sp2 a b then strip_from sp2 sp3 r'
            else
              match r' with
              | String c r'' =>
                  if sp3 a b c then strip_from sp2 sp3 r'' else s
              | EmptyString => s
              end
        | EmptyString => s
        end
  | EmptyString => EmptyString
  end.

(** [s.lstrip()] *)
Definition lstrip (s : string) : string := strip_from is_space2 is_space3 s.

(** [s.rstrip()]: the same from the end, where the bytes of a character
    come last byte first. *)
Definition rstrip (s : string) : string :=
  String.rev
    (strip_from (λ a b, is_space2 b a) (λ a b c, is_space3 c b a)
       (String.rev s)).

(** [s.strip()] *)
Definition strip (s : string) : string := rstrip (lstrip s).

(** [len(s)]: the number of characters, that is of the bytes that do not
    continue a character. *)
Definition is_continuation (c : Ascii.ascii) : bool :=
  (128 <=? byte c)%nat && (byte c <? 192)%nat.

Fixpoint len (s : string) : nat :=
  match s with
  | String c r => ((if is_continuation c then 0 else 1) + len r)%nat
  | EmptyString => 0%nat
  end.

Arguments strip : simpl never.
Arguments len : simpl never.

(** ** Names the driver refuses

    pymongo checks the name whenever a [Database] or a [Collection] object
    is made, and raises [InvalidName] before anything is sent; the messages
    are given without the name they end with. *)

Fixpoint has_char (c : Ascii.ascii) (s : string) : bool :=
  match s with
  | String a r => Ascii.eqb a c || has_char c r
  | EmptyString => false
  end.

(** [sub in s] *)
Fixpoint contains (sub s : string) : bool :=
  String.prefix sub s ||
  match s with
  | String _ r => contains sub r
  | EmptyString => false
  end.

(** [s[-1] == c] *)
Definition ends_with (c : Ascii.ascii) (s : string) : bool :=
  match String.rev s with
  | String a _ => Ascii.eqb a c
  | EmptyString => false
  end.

(** The characters [pymongo.database._check_name] refuses: space, [.],
    [$], [/], backslash, NUL and the double quote. *)
Definition database_name_invalid_chars : list Ascii.ascii :=
  [Ascii.ascii_of_nat 32; Ascii.ascii_of_nat 46; Ascii.ascii_of_nat 36;
   Ascii.ascii_of_nat 47; Ascii.ascii_of_nat 92; Ascii.ascii_of_nat 0;
   Ascii.ascii_of_nat 34].

(** [client[name]], that is [Database(client, name)] *)
Definition Database_new (name : string) : option exn :=
  if String.eqb name "$external" then None
  else if String.eqb name "" then
    Some (Exn InvalidName "database name cannot be the empty string")
  else if existsb (λ c, has_char c name) database_name_invalid_chars then
    Some (Exn InvalidName "database names cannot contain the character")
  else None.

(** [db[name]], that is [Collection(db, name)] *)
Definition Collection_new (name : string) : option exn :=
  if String.eqb name "" || contains ".." name then
    Some (Exn InvalidName "collection names cannot be empty")
  else if has_char (Ascii.ascii_of_nat 36) name
          && negb (String.prefix "oplog.$main" name || String.prefix "$cmd" name)
  then Some (Exn InvalidName "collection names must not contain '$'")
  else if String.prefix "." name || ends_with (Ascii.ascii_of_nat 46) name then
    Some (Exn InvalidName "collection names must not start or end with '.'")
  else if has_char (Ascii.ascii_of_nat 0) name then
    Some (Exn InvalidName "collection names must not contain the null character")
  else None.

Arguments Database_new : simpl never.
Arguments Collection_new : simpl never.

Section Engine.
Context (env : Env).

(** ** EmbeddingGenerator *)

Record EmbeddingGenerator : Type := MkEmbeddingGenerator {
  _model : string;
  _dimensions : Z
}.

(** [api_key or os.getenv("OPENAI_API_KEY")] *)
Definition resolve_api_key (api_key : option string) : option string :=
  match api_key with
  | Some k =>
      if bool_decide (k = "") then getenv env "OPENAI_API_KEY" else Some k
  | None => getenv env "OPENAI_API_KEY"
  end.

(** [openai.AsyncOpenAI(api_key=...)]: without a key, neither given nor in
    the environment, the constructor raises [OpenAIError]. *)
Definition AsyncOpenAI_new (api_key : option string) : option exn :=
  match api_key with
  | Some _ => None
  | None =>
      match getenv env "OPENAI_API_KEY" with
      | Some _ => None
      | None => Some (Exn APIError "The api_key client option must be set")
      end
  end.

(** [EmbeddingGenerator.__init__] with its defaults *)
Definition EmbeddingGenerator_init (api_key model : option string)
    (dimensions : option Z) (base_url : option string)
    : M EmbeddingGenerator :=
  match AsyncOpenAI_new (resolve_api_key api_key) with
  | Some e => raise e
  | None =>
      ret (MkEmbeddingGenerator (default "text-embedding-3-small" model)
             (default 1536 dimensions))
  end.

(** [await self._client.embeddings.create(model=..., input=..., dimensions=...)]:
    one round trip to the service; the request is recorded whether or not
    the service answers. *)
Definition embeddings_create_call (g : EmbeddingGenerator)
    (input : embedding_input) : M (list embedding_item) := λ st,
  let req := EmbeddingsRequest (_model g) input (_dimensions g) in
  (embeddings_create env req, MkState (mongo st) (log_api req (world st))).

(** [EmbeddingGenerator.generate] *)
Definition generate (g : EmbeddingGenerator) (text : value) : M (list float) :=
  let* data := embeddings_create_call g (InputOne text) in
  match data with
  | item :: _ => ret (embedding item)
  | [] => raise (Exn IndexError "list index out of range")
  end.

(** [EmbeddingGenerator.generate_batch] *)
Definition generate_batch (g : EmbeddingGenerator) (texts : list value)
    : M (list (list float)) :=
  match texts with
  | [] => ret []
  | _ :: _ =>
      let* data := embeddings_create_call g (InputMany texts) in
      let sorted_data := sorted index data in
      ret (embedding <$> sorted_data)
  end.

(** ** MongoDBClient *)

(** [MongoDBClient.__init__] *)
Definition MongoDBClient_init (uri database_name : string) : MongoDBClient :=
  MkMongoDBClient uri database_name None None.

(** [MongoDBClient.connect].  The two assignments are two steps: when the
    driver refuses the database name, the new [MongoClient] is already
    cached, and it stays open. *)
Definition connect : M unit := λ st,
  let c := mongo st in
  match _client c with
  | None =>
      match MongoClient_new env (_uri c) with
      | Some e => (Raise e, st)
      | None =>
          (* self._client = MongoClient(self._uri) *)
          let h := next_handle (world st) in
          let w := open_handle (world st) in
          (* self._db = self._client[self._database_name] *)
          match Database_new (_database_name c) with
          | Some e =>
              (Raise e,
               MkState (MkMongoDBClient (_uri c) (_database_name c)
                          (Some h) (_db c)) w)
          | None =>
              (Ok tt,
               MkState (MkMongoDBClient (_uri c) (_database_name c)
                          (Some h) (Some (h, _database_name c))) w)
          end
      end
  | Some _ => (Ok tt, st)
  end.

(** [MongoDBClient.disconnect]; a MongoClient object is always truthy. *)
Definition disconnect : M unit := λ st,
  let c := mongo st in
  match _client c with
  | Some h =>
      (Ok tt,
       MkState (MkMongoDBClient (_uri c) (_database_name c) None None)
               (close_handle h (world st)))
  | None => (Ok tt, st)
  end.

(** The property [MongoDBClient.db] *)
Definition db : M (option (nat * string)) :=
  let* d := gets (λ st, _db (mongo st)) in
  (match d with
   | None => connect
   | Some _ => ret tt
   end) ;;
  gets (λ st, _db (mongo st)).

(** [MongoDBClient.get_collection]: [self.db[collection_name]] gives a
    Collection object, here the name, unless the driver refuses the name;
    [None[...]] is a TypeError. *)
Definition get_collection (collection_name : string) : M string :=
  let* d := db in
  match d with
  | Some _ =>
      match Collection_new collection_name with
      | Some e => raise e
      | None => ret collection_name
      end
  | None => raise (Exn TypeError "'NoneType' object is not subscriptable")
  end.

(** A request to the server: it is recorded, and fails if the server
    rejects it. *)
Definition server_call (op : store_op) : M unit := λ st,
  let st' := MkState (mongo st) (log_server op (world st)) in
  match server_fault env op with
  | Some e => (Raise e, st')
  | None => (Ok tt, st')
  end.

Definition collection_rows (c : string) (w : World) : list record :=
  default [] (collections w !! c).

(** pymongo gives a document without [_id] a fresh ObjectId on insertion. *)
Definition with_id (n : nat) (doc : record) : record :=
  match doc !! "_id" with
  | Some _ => doc
  | None => <["_id" := VObjectId n]> doc
  end.

Definition id_of (doc : record) : value := default VNone (doc !! "_id").

(** [collection.insert_one(document).inserted_id] *)
Definition insert_one (c : string) (doc : record) : M value :=
  server_call (OpInsertOne c doc) ;;
  let* n := gets (λ st, next_oid (world st)) in
  let doc' := with_id n doc in
  modify_world (λ w,
    set_next_oid (S n)
      (set_collections (<[c := collection_rows c w ++ [doc']]> (collections w)) w)) ;;
  ret (id_of doc').

(** [collection.insert_many(documents).inserted_ids]; the driver refuses
    an empty list before it sends anything. *)
Definition insert_many (c : string) (docs : list record) : M (list value) :=
  match docs with
  | [] => raise (Exn TypeError "documents must be a non-empty list")
  | _ :: _ =>
      server_call (OpInsertMany c docs) ;;
      let* n := gets (λ st, next_oid (world st)) in
      let docs' := imap (λ i d, with_id (n + i)%nat d) docs in
      modify_world (λ w,
        set_next_oid (n + length docs)%nat
          (set_collections
             (<[c := collection_rows c w ++ docs']> (collections w)) w)) ;;
      ret (id_of <$> docs')
  end.

(** [MongoDBClient.list_collections] *)
Definition list_collections : M (list string) :=
  let* d := db in
  match d with
  | None => raise (Exn AttributeError
              "'NoneType' object has no attribute 'list_collection_names'")
  | Some _ =>
      server_call OpListCollectionNames ;;
      gets (λ st, (map_to_list (collections (world st))).*1)
  end.

(** [MongoDBClient.create_collection].  The driver first asks the server
    whether the collection exists, which is an error; it looks at the name
    after that, when it makes the Collection object. *)
Definition create_collection (collection_name : string) : M string :=
  let* d := db in
  match d with
  | None => raise (Exn AttributeError
              "'NoneType' object has no attribute 'create_collection'")
  | Some _ =>
      server_call (OpCreateCollection collection_name) ;;
      let* cs := gets (λ st, collections (world st)) in
      match cs !! collection_name with
      | Some _ => raise (Exn CollectionInvalid "collection already exists")
      | None =>
          match Collection_new collection_name with
          | Some e => raise e
          | None =>
              modify_world (set_collections (<[collection_name := []]> cs)) ;;
              ret collection_name
          end
      end
  end.

(** [MongoDBClient.collection_exists] *)
Definition collection_exists (collection_name : string) : M bool :=
  let* names := list_collections in
  ret (bool_decide (collection_name ∈ names)).

(** [MongoDBClient.insert_document] *)
Definition insert_document (collection_name : string) (document : record)
    : M string :=
  let* collection := get_collection collection_name in
  let* inserted_id := insert_one collection document in
  ret (py_str env inserted_id).

(** [MongoDBClient.insert_documents] *)
Definition insert_documents (collection_name : string)
    (documents : list record) : M (list string) :=
  let* collection := get_collection collection_name in
  let* inserted_ids := insert_many collection documents in
  ret (py_str env <$> inserted_ids).

Definition find_documents_default_limit : Z := 10.

(** [MongoDBClient.find_documents]; [limit = None] when not supplied. *)
Definition find_documents (collection_name : string) (query : record)
    (limit : option Z) : M (list record) :=
  let limit := default find_documents_default_limit limit in
  let* collection := get_collection collection_name in
  server_call (OpFind collection query limit) ;;
  gets (λ st, find_rows env query limit (collection_rows collection (world st))).

(** [MongoDBClient.delete_documents] *)
Definition delete_documents (collection_name : string) (query : record)
    : M Z :=
  let* collection := get_collection collection_name in
  server_call (OpDeleteMany collection query) ;;
  let* old := gets (λ st, collection_rows collection (world st)) in
  let kept := filter (λ r, query_match env query r = false) old in
  modify_world (λ w,
    match collections w !! collection with
    | Some _ => set_collections (<[collection := kept]> (collections w)) w
    | None => w
    end) ;;
  ret (Z.of_nat (length old - length kept)).

(** [MongoDBClient.create_vector_search_index]; [similarity = None] when
    not supplied. *)
Definition create_vector_search_index (collection_name index_name
    vector_field : string) (dimensions : Z) (similarity : option string)
    : M unit :=
  let similarity := default "cosine" similarity in
  let* collection := get_collection collection_name in
  let index_definition :=
    IndexDefinition index_name vector_field dimensions similarity in
  server_call (OpCreateSearchIndex collection index_definition) ;;
  modify_world (add_search_index collection index_definition).

Definition vector_search_default_limit : Z := 10.
Definition vector_search_default_num_candidates : Z := 100.

(** The aggregation pipeline of [vector_search]; [if filter_query:] holds
    for a dict that is neither [None] nor empty. *)
Definition vector_search_pipeline (index_name vector_field : string)
    (query_vector : list float) (limit num_candidates : Z)
    (filter_query : option record) : list pipeline_stage :=
  [ StageVectorSearch
      (VectorSearchStage index_name vector_field query_vector
         num_candidates limit
         (match filter_query with
          | Some q => if (size q =? 0)%nat then None else Some q
          | None => None
          end));
    StageAddFieldsScore ].

(** [MongoDBClient.vector_search]; [limit] and [num_candidates] are [None]
    when the caller does not supply them. *)
Definition vector_search (collection_name index_name vector_field : string)
    (query_vector : list float) (limit num_candidates : option Z)
    (filter_query : option record) : M (list record) :=
  let limit := default vector_search_default_limit limit in
  let num_candidates :=
    default vector_search_default_num_candidates num_candidates in
  let* collection := get_collection collection_name in
  let pipeline :=
    vector_search_pipeline index_name vector_field query_vector limit
      num_candidates filter_query in
  server_call (OpAggregate collection pipeline) ;;
  gets (λ st, aggregate_rows env pipeline (collection_rows collection (world st))).

(** ** SemanticSearch *)

Record SemanticSearch : Type := MkSemanticSearch {
  _embedding_generator : EmbeddingGenerator;
  _default_collection : string;
  _default_index : string;
  _vector_field : string;
  _text_field : string
}.

(** [SemanticSearch.__init__] with its defaults *)
Definition SemanticSearch_init (g : EmbeddingGenerator)
    (default_collection default_index vector_field text_field : option string)
    : SemanticSearch :=
  MkSemanticSearch g
    (default "vectors" default_collection)
    (default "vector_index" default_index)
    (default "embedding" vector_field)
    (default "content" text_field).

(** The dict literal [{text_field: content, vector_field: embedding,
    "metadata": metadata}]; a later key overrides an equal earlier one. *)
Definition vector_record (ss : SemanticSearch) (content : value)
    (e : list float) (metadata : value) : record :=
  <["metadata" := metadata]>
    (<[_vector_field ss := embedding_value e]>
       (<[_text_field ss := content]> ∅)).

(** [SemanticSearch.index_document] *)
Definition index_document (ss : SemanticSearch) (content : value)
    (metadata : option record) (collection_name : option string) : M string :=
  let collection := str_or collection_name (_default_collection ss) in
  let* e := generate (_embedding_generator ss) content in
  let document :=
    vector_record ss content e (VDict (dict_or_empty metadata)) in
  insert_document collection document.

(** [doc.get(key, default)] *)
Definition dict_get (doc : record) (key : string) (default_value : value)
    : value :=
  default default_value (doc !! key).

(** [SemanticSearch.index_documents] *)
Definition index_documents (ss : SemanticSearch) (documents : list record)
    (collection_name : option string) : M (list string) :=
  let collection := str_or collection_name (_default_collection ss) in
  let contents := (λ doc, dict_get doc "content" (VStr "")) <$> documents in
  let* embeddings := generate_batch (_embedding_generator ss) contents in
  let docs_with_embeddings :=
    (λ '(doc, e),
       vector_record ss (dict_get doc "content" (VStr "")) e
         (dict_get doc "metadata" (VDict ∅)))
    <$> zip documents embeddings in
  insert_documents collection docs_with_embeddings.

(** One turn of the formatting loop of [search]:
    [result.pop(vector_field, None); result["_id"] = str(result.get("_id", ""))] *)
Definition format_result (ss : SemanticSearch) (result : record) : record :=
  let popped := delete (_vector_field ss) result in
  <["_id" := VStr (py_str env (dict_get popped "_id" (VStr "")))]> popped.

Definition search_default_limit : Z := 10.

(** [SemanticSearch.search]; [limit = None] when not supplied. *)
Definition search (ss : SemanticSearch) (query : value) (limit : option Z)
    (collection_name index_name : option string)
    (filter_query : option record) : M (list record) :=
  let limit := default search_default_limit limit in
  let collection := str_or collection_name (_default_collection ss) in
  let index := str_or index_name (_default_index ss) in
  let* query_vector := generate (_embedding_generator ss) query in
  let* results :=
    vector_search collection index (_vector_field ss) query_vector
      (Some limit) None filter_query in
  ret (format_result ss <$> results).

(** [SemanticSearch.setup_index] *)
Definition setup_index (ss : SemanticSearch)
    (collection_name index_name : option string) (dimensions : option Z)
    : M unit :=
  let collection := str_or collection_name (_default_collection ss) in
  let index := str_or index_name (_default_index ss) in
  let dims := int_or dimensions (_dimensions (_embedding_generator ss)) in
  create_vector_search_index collection index (_vector_field ss) dims None.

(** ** The bulk indexing job *)

(** [file_path.name] *)
Definition path_name (p : Path) : string := default "" (last (path_rel p)).

(** [relative_path.parent.name if relative_path.parent != Path('.') else "root"] *)
Definition path_folder_name (p : Path) : string :=
  default "root" (last (removelast (path_rel p))).

(** [str(relative_path)] *)
Definition path_relative_str (p : Path) : string :=
  String.concat "/" (path_rel p).

(** [datetime.utcnow()] *)
Definition utcnow : M value := λ st,
  (Ok (VDatetime (clock (world st))), MkState (mongo st) (tick (world st))).

Definition open_read (p : Path) : M string := λ st, (read_text env p, st).

Definition document_metadata (p : Path) (content : string) (now : value)
    : record :=
  <["created_at" := now]>
    (<["size" := VInt (Z.of_nat (len content))]>
       (<["content" := VStr content]>
          (<["absolute_path" := VStr (path_abs p)]>
             (<["relative_path" := VStr (path_relative_str p)]>
                (<["folder" := VStr (path_folder_name p)]>
                   (<["name" := VStr (path_name p)]> ∅)))))).

Definition vector_metadata (p : Path) (content doc_id : string) (now : value)
    : record :=
  <["created_at" := now]>
    (<["content_length" := VInt (Z.of_nat (len content))]>
       (<["relative_path" := VStr (path_relative_str p)]>
          (<["folder_name" := VStr (path_folder_name p)]>
             (<["document_name" := VStr (path_name p)]>
                (<["document_id" := VStr doc_id]> ∅))))).

(** The body of the [try] in the loop of [index_documents_from_folder];
    the result says whether [indexed_count += 1] was reached ([false] at
    the [continue] for an empty file). *)
Definition process_file (ss : SemanticSearch)
    (documents_collection vectors_collection : string) (file_path : Path)
    : M bool :=
  let* raw := open_read file_path in
  let content := strip raw in
  if bool_decide (content = "") then
    print (EvSkippingEmpty (path_name file_path)) ;;
    ret false
  else
    print (EvProcessing (path_name file_path) (path_folder_name file_path)
             (len content)) ;;
    let* now := utcnow in
    let* doc_id :=
      insert_document documents_collection
        (document_metadata file_path content now) in
    print (EvSavedDocument doc_id) ;;
    let* now' := utcnow in
    let* vector_id :=
      index_document ss (VStr content)
        (Some (vector_metadata file_path content doc_id now'))
        (Some vectors_collection) in
    print (EvSavedVector vector_id) ;;
    ret true.

(** The [except Exception as e] branch. *)
Definition report_error (file_path : Path) (e : exn) : M bool :=
  print (EvError (path_name file_path) e) ;;
  print (EvTraceback e) ;;
  ret false.

(** [for file_path in text_files: try: ... except Exception as e: ...],
    threading [indexed_count]. *)
Fixpoint index_loop (ss : SemanticSearch)
    (documents_collection vectors_collection : string)
    (text_files : list Path) (indexed_count : nat) : M nat :=
  match text_files with
  | [] => ret indexed_count
  | file_path :: rest =>
      let* indexed :=
        try_except
          (process_file ss documents_collection vectors_collection file_path)
          (report_error file_path) in
      index_loop ss documents_collection vectors_collection rest
        (if indexed then S indexed_count else indexed_count)
  end.

(** [index_documents_from_folder] *)
Definition index_documents_from_folder (folder_path : string)
    (ss : SemanticSearch) (documents_collection vectors_collection : string)
    : M unit :=
  match rglob_txt env folder_path with
  | None => print EvFolderMissing
  | Some [] => print EvNoTextFiles
  | Some text_files =>
      print (EvFound (length text_files)) ;;
      let* indexed_count :=
        index_loop ss documents_collection vectors_collection text_files 0 in
      print (EvComplete indexed_count (length text_files))
  end.

End Engine.

(** ** A concrete environment

    A mock of the two services: the embedding service answers every request,
    and returns the items of a batch in reverse order; the server accepts
    every request. *)
Module Demo.

Definition float_of_nat (n : nat) : float :=
  match n with
  | O => S754_zero false
  | S _ => S754_finite false (Pos.of_nat n) 0
  end.

Definition vec (i : nat) (text : value) : list float :=
  [float_of_nat i;
   match text with VStr "" => S754_zero false | _ => S754_finite false 1 0 end].

Definition service (req : embeddings_request) : outcome (list embedding_item) :=
  match req_input req with
  | InputOne text => Ok [EmbeddingItem 0 (vec 0 text)]
  | InputMany texts =>
      Ok (reverse (imap (λ i t, EmbeddingItem (Z.of_nat i) (vec i t)) texts))
  end.

Definition str (v : value) : string :=
  match v with
  | VStr s => s
  | VObjectId n => "oid" +:+ pretty n
  | VInt z => pretty z
  | VNone => "None"
  | _ => "?"
  end.

Definition files (folder_path : string) : option (list Path) :=
  if String.eqb folder_path "/data" then
    Some [MkPath ["a.txt"] "/data/a.txt";
          MkPath ["sub"; "b.txt"] "/data/sub/b.txt";
          MkPath ["c.txt"] "/data/c.txt"]
  else if String.eqb folder_path "/blank" then
    Some [MkPath ["blank.txt"] "/blank/blank.txt"]
  else if String.eqb folder_path "/unicode" then
    Some [MkPath ["nbsp.txt"] "/unicode/nbsp.txt";
          MkPath ["cafe.txt"] "/unicode/cafe.txt"]
  else None.

(** U+00A0, the no-break space, and U+3000, the ideographic space. *)
Definition nbsp : string :=
  String (Ascii.ascii_of_nat 194) (String (Ascii.ascii_of_nat 160) "").

Definition ideographic_space : string :=
  String (Ascii.ascii_of_nat 227)
    (String (Ascii.ascii_of_nat 128) (String (Ascii.ascii_of_nat 128) "")).

Definition read (p : Path) : outcome string :=
  match path_rel p with
  | ["a.txt"] => Ok "alpha
"
  | ["sub"; "b.txt"] => Raise (Exn UnicodeDecodeError "invalid start byte")
  | ["blank.txt"] => Ok "   "
  | ["nbsp.txt"] => Ok (nbsp +:+ ideographic_space)
  | ["cafe.txt"] => Ok (nbsp +:+ " café " +:+ ideographic_space)
  | _ => Ok "gamma"
  end.

Definition rows (p : list pipeline_stage) (stored : list record) : list record :=
  match p with
  | StageVectorSearch s :: _ =>
      (λ r, <["score" := VFloat (S754_finite false 1 0)]> r) <$> take (Z.to_nat (vs_limit s)) stored
  | _ => stored
  end.

Definition env : Env :=
  MkEnv service (λ _, None) (λ _, None) rows
    (λ q limit stored, take (Z.to_nat limit) stored)
    (λ q r, true)
    str files read (λ _, None).

(** The same, except that reading [a.txt] is interrupted from the keyboard. *)
Definition env_interrupted : Env :=
  MkEnv service (λ _, None) (λ _, None) rows
    (λ q limit stored, take (Z.to_nat limit) stored)
    (λ q r, true)
    str files
    (λ p, match path_rel p with
          | ["a.txt"] => Raise (Exn KeyboardInterrupt "")
          | _ => read p
          end)
    (λ _, None).

Definition world0 : World := MkWorld [] 0 [] [] ∅ [] [] 0 0 [].

Definition client0 : MongoDBClient :=
  MongoDBClient_init "mongodb://localhost" "rag".

Definition state0 : State := MkState client0 world0.

Definition generator : EmbeddingGenerator :=
  MkEmbeddingGenerator "text-embedding-3-small" 1536.

Definition engine : SemanticSearch :=
  SemanticSearch_init generator None None None None.

End Demo.

Module DemoStore.

(** Two documents, the second without [content]. *)
Definition docs : list record :=
  [ {[ "content" := VStr "A"; "metadata" := VDict {[ "source" := VStr "dummy" ]} ]};
    {[ "metadata" := VDict {[ "source" := VStr "dummy" ]} ]};
    {[ "content" := VStr "C" ]} ].

(** The state after indexing them into the default collection. *)
Definition state3 : State :=
  (index_documents Demo.env Demo.engine docs None Demo.state0).2.

End DemoStore.

(** ** Vocabulary of the properties *)

(** The order [sorted] establishes. *)
Definition key_le {A} (key : A → Z) (x y : A) : Prop := key x ≤ key y.

(** The items of a response in request order: item [i] carries [es !! i]. *)
Definition indexed_from (n : nat) (es : list (list float)) : list embedding_item :=
  imap (λ i e, EmbeddingItem (Z.of_nat (n + i)) e) es.

Definition in_request_order (es : list (list float)) : list embedding_item :=
  indexed_from 0 es.

(** The data operations of [MongoDBClient], with their arguments. *)
Inductive data_op : Type :=
  | GetCollection (collection_name : string)
  | ListCollections
  | CreateCollection (collection_name : string)
  | CollectionExists (collection_name : string)
  | InsertDocument (collection_name : string) (document : record)
  | InsertDocuments (collection_name : string) (documents : list record)
  | FindDocuments (collection_name : string) (query : record) (limit : option Z)
  | DeleteDocuments (collection_name : string) (query : record)
  | CreateVectorSearchIndex (collection_name index_name vector_field : string)
      (dimensions : Z) (similarity : option string)
  | VectorSearch (collection_name index_name vector_field : string)
      (query_vector : list float) (limit num_candidates : option Z)
      (filter_query : option record).

(** Run a computation for its effect. *)
Definition void {A} (m : M A) : M unit := bind m (λ _, ret tt).

(** Run a data operation, whatever it returns. *)
Definition run_data_op (env : Env) (op : data_op) : M unit :=
  match op with
  | GetCollection c => void (get_collection env c)
  | ListCollections => void (list_collections env)
  | CreateCollection c => void (create_collection env c)
  | CollectionExists c => void (collection_exists env c)
  | InsertDocument c d => void (insert_document env c d)
  | InsertDocuments c ds => void (insert_documents env c ds)
  | FindDocuments c q l => void (find_documents env c q l)
  | DeleteDocuments c q => void (delete_documents env c q)
  | CreateVectorSearchIndex c i f d s =>
      void (create_vector_search_index env c i f d s)
  | VectorSearch c i f q l n fq => void (vector_search env c i f q l n fq)
  end.

Definition is_get_collection (op : data_op) : bool :=
  match op with GetCollection _ => true | _ => false end.

(** Both handles are cached. *)
Definition connected (c : MongoDBClient) : Prop :=
  is_Some (_client c) ∧ is_Some (_db c).

(** The two cached handles go together: both are cached or neither, and
    the database handle is the one of the cached client.  This holds of a
    new client, and [disconnect] and a [connect] that succeeds keep it; a
    [connect] that fails on the database name does not. *)
Definition client_wf (c : MongoDBClient) : Prop :=
  _db c = (λ h, (h, _database_name c)) <$> _client c.

(** The client is usable: its handles are consistent, [MongoClient(uri)]
    accepts its URI and the driver accepts its database name. *)
Definition can_connect (env : Env) (st : State) : Prop :=
  client_wf (mongo st) ∧
  MongoClient_new env (_uri (mongo st)) = None ∧
  Database_new (_database_name (mongo st)) = None.

(** The database handle, when cached, is the one of the cached client.
    Unlike [client_wf] this allows a client without database handle: what
    [connect] leaves when the driver refuses the database name. *)
Definition db_of_client (c : MongoDBClient) : Prop :=
  ∀ d, _db c = Some d → _client c = Some d.1 ∧ d.2 = _database_name c.

(** What a data operation hands to the driver is accepted: the name of the
    collection, and for [insert_documents] a list that is not empty.
    [create_collection] sends its request before the name is looked at. *)
Definition accepted (op : data_op) : Prop :=
  match op with
  | ListCollections | CollectionExists _ | CreateCollection _ => True
  | GetCollection c | InsertDocument c _ | FindDocuments c _ _
  | DeleteDocuments c _ | CreateVectorSearchIndex c _ _ _ _
  | VectorSearch c _ _ _ _ _ _ => Collection_new c = None
  | InsertDocuments c ds => Collection_new c = None ∧ ds ≠ []
  end.

(** The request [generate] sends for a text. *)
Definition single_request (g : EmbeddingGenerator) (text : value)
    : embeddings_request :=
  EmbeddingsRequest (_model g) (InputOne text) (_dimensions g).

(** The request [generate_batch] sends for a non-empty list of texts. *)
Definition batch_request (g : EmbeddingGenerator) (texts : list value)
    : embeddings_request :=
  EmbeddingsRequest (_model g) (InputMany texts) (_dimensions g).

(** The state after the embedding service has been called. *)
Definition sent (req : embeddings_request) (st : State) : State :=
  MkState (mongo st) (log_api req (world st)).

(** The state after [connect]. *)
Definition connected_state (env : Env) (st : State) : State :=
  (connect env st).2.

(** The [$vectorSearch] stage of an aggregation request. *)
Definition request_stage (op : store_op) : option vector_search_stage :=
  match op with
  | OpAggregate _ (StageVectorSearch s :: _) => Some s
  | _ => None
  end.

(** The store and the log only grow. *)
Definition world_le (w w' : World) : Prop :=
  (∀ c, collection_rows c w `prefix_of` collection_rows c w') ∧
  stdout w `prefix_of` stdout w'.

(** Every exception the outside raises is an [Exception]. *)
Definition only_Exceptions (env : Env) : Prop :=
  (∀ req e, embeddings_create env req = Raise e → is_Exception e = true) ∧
  (∀ uri e, MongoClient_new env uri = Some e → is_Exception e = true) ∧
  (∀ op e, server_fault env op = Some e → is_Exception e = true) ∧
  (∀ p e, read_text env p = Raise e → is_Exception e = true).

(** A computation that only adds to the store and to the log, and that
    raises nothing but [Exception]s. *)
Definition tame {A} (m : M A) : Prop :=
  ∀ st,
    world_le (world st) (world (m st).2) ∧
    ∀ e, (m st).1 = Raise e → is_Exception e = true.

(** The records the job writes for a file: the document record and the
    vector record, as stored.  The vector record carries the embedding the
    provider gave for the stripped text, and the id of the document record;
    it goes to the collection [index_document] resolves
    ([collection_name or self._default_collection]). *)
Definition indexed_in (env : Env) (ss : SemanticSearch)
    (documents_collection vectors_collection : string) (f : Path) (w : World)
    : Prop :=
  ∃ raw n n' item rest now now',
    let document := with_id n (document_metadata f (strip raw) now) in
    read_text env f = Ok raw ∧
    embeddings_create env
      (single_request (_embedding_generator ss) (VStr (strip raw)))
      = Ok (item :: rest) ∧
    document ∈ collection_rows documents_collection w ∧
    with_id n' (vector_record ss (VStr (strip raw)) (embedding item)
                  (VDict (vector_metadata f (strip raw)
                            (py_str env (id_of document)) now')))
      ∈ collection_rows
          (str_or (Some vectors_collection) (_default_collection ss)) w.

(** A turn of the loop that left the store and both services alone. *)
Definition untouched (reached after : State) : Prop :=
  collections (world after) = collections (world reached) ∧
  server_calls (world after) = server_calls (world reached) ∧
  api_calls (world after) = api_calls (world reached).

(** What one turn of the loop leaves behind, by the outcome of the file. *)
Definition turn_outcome (env : Env) (ss : SemanticSearch) (dc vc : string)
    (f : Path) (reached : State) (w : World) : Prop :=
  match process_file env ss dc vc f reached with
  | (Raise e, _) => EvError (path_name f) e ∈ stdout w
  | (Ok indexed, after) =>
      ∃ raw, read_text env f = Ok raw ∧
        if bool_decide (strip raw = "")
        then indexed = false ∧ untouched reached after ∧
             EvSkippingEmpty (path_name f) ∈ stdout w
        else indexed = true ∧ indexed_in env ss dc vc f w
  end.

(** Unfold one layer of the monad. *)
Ltac run_monad :=
  unfold void, bind, ret, raise, gets, modify_world, print; simpl.

(** ** The agent's search tool ([mcp_server/tools.py]) *)

(** The values of [mcp_rag_agent.core.config.config] that the retrieval
    code reads.  The module is not part of the sources at hand; its values
    are parameters. *)
Record Config : Type := MkConfig {
  db_url : string;
  db_name : string;
  db_documents_collection : string;
  db_vector_collection : string;
  db_vector_index_name : string;
  embedding_model : string;
  embedding_dimension : Z;
  model_api_key : option string
}.

(** The module-level [embedding_generator] of [tools.py]. *)
Definition tools_embedding_generator (cfg : Config) : EmbeddingGenerator :=
  MkEmbeddingGenerator (embedding_model cfg) (embedding_dimension cfg).

(** The module-level [semantic_search] of [tools.py]: its default
    collection is the documents collection. *)
Definition tools_semantic_search (cfg : Config) : SemanticSearch :=
  SemanticSearch_init (tools_embedding_generator cfg)
    (Some (db_documents_collection cfg)) (Some (db_vector_index_name cfg))
    None None.

Definition search_documents_default_top_k : Z := 3.

(** [search_documents]; [top_k = None] when not supplied.  The two
    [logger.info] lines go to the logging handler, which [World] does not
    record. *)
Definition search_documents (env : Env) (cfg : Config) (query : value)
    (top_k : option Z) : M (list record) :=
  let top_k := default search_documents_default_top_k top_k in
  search env (tools_semantic_search cfg) query (Some top_k)
    (Some (db_vector_collection cfg)) (Some (db_vector_index_name cfg)) None.

(** ** The scripts: [main] of [index_documents.py] and of [client.py] *)

(** The lines the two [main] functions print themselves.  They are kept in
    a console of their own, beside the [stdout] of [World] that records
    what [index_documents_from_folder] prints; how the lines of the two
    interleave is not recorded. *)
Inductive main_line : Type :=
  | MlHeader
  | MlInitClient
  | MlInitGenerator
  | MlInitSearch
  | MlClearing
  | MlDeleted (n : Z) (collection : string)
  | MlChecking
  | MlCreating (collection : string)
  | MlCreated (collection : string)
  | MlExists (collection : string)
  | MlSettingUpIndex
  | MlIndexReady (index_name : string)
  | MlIndexNote
  | MlIndexMayExist (e : exn)
  | MlErrorOccurred (e : exn)
  | MlTraceback (e : exn)
  | MlDisconnecting
  | MlDone
  | MlConnecting (database_name : string)
  | MlFound (n : nat)
  | MlCollection (name : string)
  | MlError (e : exn)
  | MlDisconnected.

Record Run : Type := MkRun {
  run_state : State;
  console : list main_line
}.

Definition P (A : Type) : Type := Run → outcome A * Run.

Definition pret {A} (a : A) : P A := λ r, (Ok a, r).

Definition pbind {A B} (m : P A) (k : A → P B) : P B := λ r,
  match m r with
  | (Ok a, r') => k a r'
  | (Raise e, r') => (Raise e, r')
  end.

(** A method call inside a script. *)
Definition plift {A} (m : M A) : P A := λ r,
  let '(o, st') := m (run_state r) in (o, MkRun st' (console r)).

(** [print(...)] in a script. *)
Definition say (l : main_line) : P unit := λ r,
  (Ok tt, MkRun (run_state r) (console r ++ [l])).

(** [try: body  except Exception as e: handler(e)] *)
Definition ptry_except {A} (body : P A) (handler : exn → P A) : P A := λ r,
  match body r with
  | (Ok a, r') => (Ok a, r')
  | (Raise e, r') => if is_Exception e then handler e r' else (Raise e, r')
  end.

(** [try: body  finally: final]: [final] runs in every case; what [body]
    returned or raised stands, unless [final] raises itself. *)
Definition ptry_finally {A} (body : P A) (final : P unit) : P A := λ r,
  match body r with
  | (o, r') =>
      match final r' with
      | (Ok _, r'') => (o, r'')
      | (Raise e, r'') => (Raise e, r'')
      end
  end.

Notation "'let+' x ':=' m 'in' k" := (pbind m (λ x, k))
  (at level 10, x name, m at level 100, k at level 200,
   format "'[v' 'let+'  x  ':='  m  'in' '/' k ']'") : monad_scope.
Notation "m ';;;' k" := (pbind m (λ _, k))
  (at level 100, k at level 200, right associativity) : monad_scope.

(** [client = MongoDBClient(uri=..., database_name=...)]: the script works
    with a client of its own. *)
Definition new_client (uri database_name : string) : M unit := λ st,
  (Ok tt, MkState (MongoDBClient_init uri database_name) (world st)).

(** [for collection in collections: print(...)] *)
Fixpoint say_collections (collections : list string) : P unit :=
  match collections with
  | [] => pret tt
  | collection :: rest => say (MlCollection collection) ;;; say_collections rest
  end.

(** [main] of [mongodb/client.py] *)
Definition client_main (env : Env) (cfg : Config) : P unit :=
  plift (new_client (db_url cfg) (db_name cfg)) ;;;
  ptry_finally
    (ptry_except
       (say (MlConnecting (db_name cfg)) ;;;
        plift (connect env) ;;;
        let+ collections := plift (list_collections env) in
        say (MlFound (length collections)) ;;;
        say_collections collections)
       (λ e, say (MlError e)))
    (plift disconnect ;;;
     say MlDisconnected).

(** [if mongo_client.collection_exists(c): n = delete_documents(c, {}); print(...)] *)
Definition clear_collection (env : Env) (collection : string) : P unit :=
  let+ present := plift (collection_exists env collection) in
  if present then
    let+ deleted := plift (delete_documents env collection ∅) in
    say (MlDeleted deleted collection)
  else pret tt.

(** [if not mongo_client.collection_exists(c): ... create_collection(c) ...
     else: ...] *)
Definition ensure_collection (env : Env) (collection : string) : P unit :=
  let+ present := plift (collection_exists env collection) in
  if negb present then
    say (MlCreating collection) ;;;
    plift (create_collection env collection) ;;;
    say (MlCreated collection)
  else say (MlExists collection).

Definition documents_folder : string :=
  "D:\Projects\mcp-rag-agent\data\ingested_documents".

(** [main(clear_existing)] of [embeddings/index_documents.py].  The client
    is connected and the embedding generator made before the [try]: an
    error there leaves [main] at once, past the [finally]. *)
Definition index_documents_main (env : Env) (cfg : Config)
    (clear_existing : bool) : P unit :=
  say MlHeader ;;;
  say MlInitClient ;;;
  plift (new_client (db_url cfg) (db_name cfg)) ;;;
  plift (connect env) ;;;
  say MlInitGenerator ;;;
  let+ embedding_generator :=
    plift (EmbeddingGenerator_init env (model_api_key cfg)
             (Some (embedding_model cfg)) (Some (embedding_dimension cfg))
             None) in
  say MlInitSearch ;;;
  let semantic_search :=
    SemanticSearch_init embedding_generator
      (Some (db_vector_collection cfg)) (Some (db_vector_index_name cfg))
      None None in
  ptry_finally
    (ptry_except
       ((if clear_existing then
           say MlClearing ;;;
           clear_collection env (db_documents_collection cfg) ;;;
           clear_collection env (db_vector_collection cfg)
         else pret tt) ;;;
        say MlChecking ;;;
        ensure_collection env (db_documents_collection cfg) ;;;
        ensure_collection env (db_vector_collection cfg) ;;;
        say MlSettingUpIndex ;;;
        ptry_except
          (plift (setup_index env semantic_search
                    (Some (db_vector_collection cfg))
                    (Some (db_vector_index_name cfg))
                    (Some (embedding_dimension cfg))) ;;;
           say (MlIndexReady (db_vector_index_name cfg)) ;;;
           say MlIndexNote)
          (λ e, say (MlIndexMayExist e)) ;;;
        plift (index_documents_from_folder env documents_folder semantic_search
                 (db_documents_collection cfg) (db_vector_collection cfg)))
       (λ e, say (MlErrorOccurred e) ;;; say (MlTraceback e)))
    (say MlDisconnecting ;;;
     plift disconnect ;;;
     say MlDone).

(** Further concrete environments: an embedding service that is down,
    and one that answers a batch with its first item only. *)
Module DemoExtras.

Definition service_down (req : embeddings_request)
    : outcome (list embedding_item) :=
  Raise (Exn APIError "503 Service Unavailable").

Definition env_down : Env :=
  MkEnv service_down (λ _, None) (λ _, None) Demo.rows
    (λ q limit stored, take (Z.to_nat limit) stored)
    (λ q r, true)
    Demo.str Demo.files Demo.read (λ _, None).

Definition service_short (req : embeddings_request)
    : outcome (list embedding_item) :=
  match req_input req with
  | InputOne text => Ok [EmbeddingItem 0 (Demo.vec 0 text)]
  | InputMany texts =>
      Ok (take 1 (imap (λ i t, EmbeddingItem (Z.of_nat i) (Demo.vec i t)) texts))
  end.

Definition env_short : Env :=
  MkEnv service_short (λ _, None) (λ _, None) Demo.rows
    (λ q limit stored, take (Z.to_nat limit) stored)
    (λ q r, true)
    Demo.str Demo.files Demo.read (λ _, None).

Definition cfg : Config :=
  MkConfig "mongodb://localhost" "rag" "documents" "vectors" "vector_index"
    "text-embedding-3-small" 1536 (Some "sk-demo").

(** The same with an empty database name. *)
Definition cfg_unnamed : Config :=
  MkConfig "mongodb://localhost" "" "documents" "vectors" "vector_index"
    "text-embedding-3-small" 1536 (Some "sk-demo").

End DemoExtras.

(** The open [MongoClient] objects are those in [base] and the one the
    client has cached, if any; no object is listed twice, and the objects
    still to be created are not among them.  A client without [MongoClient]
    has no database handle either. *)
Definition handles_inv (base : list nat) (st : State) : Prop :=
  (_client (mongo st) = None → _db (mongo st) = None) ∧
  open_handles (world st)
    = from_option (λ h, [h]) [] (_client (mongo st)) ++ base ∧
  NoDup (open_handles (world st)) ∧
  Forall (λ h, (h < next_handle (world st))%nat) (open_handles (world st)).

(** A method that keeps [handles_inv]. *)
Definition keeps (base : list nat) {A} (m : M A) : Prop :=
  ∀ st, handles_inv base st → handles_inv base (m st).2.

(** A script that keeps [handles_inv]. *)
Definition pkeeps (base : list nat) {A} (m : P A) : Prop :=
  ∀ r, handles_inv base (run_state r) → handles_inv base (run_state (m r).2).

(** A method that touches neither the client nor the [MongoClient] objects. *)
Definition quiet {A} (m : M A) : Prop :=
  ∀ st,
    mongo (m st).2 = mongo st ∧
    open_handles (world (m st).2) = open_handles (world st) ∧
    next_handle (world (m st).2) = next_handle (world st).

(** A script that raises nothing. *)
Definition pnever_raises {A} (m : P A) : Prop :=
  ∀ r, ∃ a, (m r).1 = Ok a.

(** What one file adds to [indexed_count]. *)
Definition counted (o : outcome bool) : nat :=
  match o with
  | Ok true => 1
  | _ => 0
  end.

(** * Properties *)

(** ** Text *)

(** [strip()] removes the white space of Unicode, not only that of ASCII,
    and [len] counts characters, not bytes. *)
Lemma strip_len_unicode :
  strip (Demo.nbsp +:+ " café " +:+ Demo.ideographic_space) = "café" ∧
  len "café" = 4%nat ∧
  strip (Demo.nbsp +:+ Demo.ideographic_space) = "" ∧
  strip "	 a b
" = "a b".
Proof. by vm_compute. Qed.

Lemma Database_new_examples :
  Database_new "rag" = None ∧
  Database_new "$external" = None ∧
  Database_new "" ≠ None ∧
  Database_new "my db" ≠ None ∧
  Database_new "a.b" ≠ None.
Proof. by vm_compute. Qed.

Lemma Collection_new_examples :
  Collection_new "vectors" = None ∧
  Collection_new "a.b" = None ∧
  Collection_new "oplog.$main" = None ∧
  Collection_new "" ≠ None ∧
  Collection_new "a..b" ≠ None ∧
  Collection_new "a$b" ≠ None ∧
  Collection_new ".a" ≠ None ∧
  Collection_new "a." ≠ None.
Proof. by vm_compute. Qed.

(** ** Sorting by key *)

Section SortedFacts.
Context {A : Type} (key : A → Z).

#[local] Instance key_le_trans : Transitive (key_le key).
Proof. unfold key_le. intros x y z ??. lia. Qed.

Lemma insert_by_key_perm x l : insert_by_key key x l ≡ₚ x :: l.
Proof.
  induction l as [|y l IH]; simpl; [done|].
  case_bool_decide; [done|].
  rewrite IH. apply Permutation_swap.
Qed.

Lemma sorted_perm l : sorted key l ≡ₚ l.
Proof.
  induction l as [|x l IH]; simpl; [done|].
  by rewrite insert_by_key_perm, IH.
Qed.

Lemma insert_by_key_Sorted x l :
  Sorted (key_le key) l → Sorted (key_le key) (insert_by_key key x l).
Proof.
  induction 1 as [|y l Hl IH Hhd]; simpl.
  - by repeat constructor.
  - case_bool_decide as Hxy.
    + constructor; [by constructor|]. by constructor.
    + constructor; [done|].
      destruct Hhd as [|z l Hyz]; simpl.
      * constructor. unfold key_le. lia.
      * case_bool_decide; constructor; unfold key_le in *; lia.
Qed.

Lemma sorted_Sorted l : Sorted (key_le key) (sorted key l).
Proof.
  induction l as [|x l IH]; simpl; [constructor|].
  by apply insert_by_key_Sorted.
Qed.

(** A list in which the key determines the element has one sorted
    arrangement: sorting any permutation of it gives it back. *)
Lemma sorted_unique l target :
  StronglySorted (key_le key) target →
  (∀ x y, x ∈ target → y ∈ target → key x = key y → x = y) →
  l ≡ₚ target →
  sorted key l = target.
Proof.
  intros Htarget Hinj Hperm.
  apply (StronglySorted_unique_strong (key_le key)).
  - intros x y Hx Hy Hxy Hyx. apply Hinj.
    + by rewrite <-Hperm, <-sorted_perm.
    + done.
    + unfold key_le in *. lia.
  - apply Sorted_StronglySorted; [apply _|]. apply sorted_Sorted.
  - done.
  - by rewrite sorted_perm.
Qed.
End SortedFacts.

Lemma indexed_from_cons n e es :
  indexed_from n (e :: es) = EmbeddingItem (Z.of_nat n) e :: indexed_from (S n) es.
Proof.
  unfold indexed_from. rewrite imap_cons. f_equal.
  - by rewrite Nat.add_0_r.
  - apply imap_ext. intros i x _. simpl. f_equal. f_equal. lia.
Qed.

Lemma elem_of_indexed_from n es x :
  x ∈ indexed_from n es →
  ∃ i, index x = Z.of_nat (n + i) ∧ es !! i = Some (embedding x).
Proof.
  unfold indexed_from. intros Hx.
  apply list_elem_of_lookup in Hx as [i Hi].
  rewrite list_lookup_imap in Hi.
  destruct (es !! i) as [e|] eqn:He; simplify_eq/=. by exists i.
Qed.

Lemma indexed_from_StronglySorted n es :
  StronglySorted (key_le index) (indexed_from n es).
Proof.
  revert n. induction es as [|e es IH]; intros n.
  - constructor.
  - rewrite indexed_from_cons. constructor; [apply IH|].
    apply Forall_forall. intros x Hx.
    apply elem_of_indexed_from in Hx as (i & Hi & _).
    unfold key_le. simpl. lia.
Qed.

Lemma indexed_from_key_inj n es x y :
  x ∈ indexed_from n es → y ∈ indexed_from n es → index x = index y → x = y.
Proof.
  intros (i & Hi & Hxi)%elem_of_indexed_from (j & Hj & Hyj)%elem_of_indexed_from Hk.
  assert (i = j) as -> by lia.
  destruct x, y; simpl in *. congruence.
Qed.

Lemma embedding_indexed_from n es : embedding <$> indexed_from n es = es.
Proof.
  revert n. induction es as [|e es IH]; intros n; [done|].
  rewrite indexed_from_cons. simpl. by rewrite IH.
Qed.

Section EmbeddingGeneratorFacts.
Context (env : Env).

Lemma generate_batch_ok g t texts es data st :
  embeddings_create env (batch_request g (t :: texts)) = Ok data →
  data ≡ₚ in_request_order es →
  generate_batch env g (t :: texts) st
  = (Ok es, sent (batch_request g (t :: texts)) st).
Proof.
  intros Hservice Hperm.
  unfold generate_batch, embeddings_create_call, batch_request in *. run_monad.
  rewrite Hservice. unfold sent. do 2 f_equal.
  rewrite (sorted_unique index data (in_request_order es)).
  - apply embedding_indexed_from.
  - apply indexed_from_StronglySorted.
  - apply indexed_from_key_inj.
  - done.
Qed.

(** C6. [generate_batch([])] returns the empty list, and the state is the
    one before the call: nothing was sent to the embedding service. *)
Theorem generate_batch_empty (g : EmbeddingGenerator) (st : State) :
  generate_batch env g [] st = (Ok [], st).
Proof. reflexivity. Qed.

(** C2. Whatever the order in which the service returns the items of a
    batch, each tagged with the index of its text, [generate_batch(texts)]
    returns a list as long as [texts] whose [i]-th element is the
    embedding the service produced for [texts[i]]. *)
Theorem generate_batch_preserves_order (g : EmbeddingGenerator)
    (texts : list value) (es : list (list float))
    (data : list embedding_item) (st : State) :
  length es = length texts →
  embeddings_create env
    (EmbeddingsRequest (_model g) (InputMany texts) (_dimensions g)) = Ok data →
  data ≡ₚ in_request_order es →
  ∃ result st',
    generate_batch env g texts st = (Ok result, st') ∧
    length result = length texts ∧
    ∀ i, result !! i = es !! i.
Proof.
  intros Hlen Hservice Hperm.
  destruct texts as [|t texts].
  - destruct es; [|done]. by exists [], st.
  - exists es, (sent (batch_request g (t :: texts)) st).
    split; [|done]. by apply generate_batch_ok with data.
Qed.
End EmbeddingGeneratorFacts.

Lemma generate_batch_preserves_order_witness :
  ∃ result st',
    generate_batch Demo.env Demo.generator [VStr "A"; VStr ""; VStr "C"] Demo.state0
      = (Ok result, st') ∧
    length result = length [VStr "A"; VStr ""; VStr "C"] ∧
    ∀ i, result !! i =
         [Demo.vec 0 (VStr "A"); Demo.vec 1 (VStr ""); Demo.vec 2 (VStr "C")] !! i.
Proof.
  apply (generate_batch_preserves_order Demo.env Demo.generator
           [VStr "A"; VStr ""; VStr "C"]
           [Demo.vec 0 (VStr "A"); Demo.vec 1 (VStr ""); Demo.vec 2 (VStr "C")]
           [EmbeddingItem 2 (Demo.vec 2 (VStr "C"));
            EmbeddingItem 1 (Demo.vec 1 (VStr ""));
            EmbeddingItem 0 (Demo.vec 0 (VStr "A"))]).
  - reflexivity.
  - reflexivity.
  - apply (reverse_Permutation
             [EmbeddingItem 0 (Demo.vec 0 (VStr "A"));
              EmbeddingItem 1 (Demo.vec 1 (VStr ""));
              EmbeddingItem 2 (Demo.vec 2 (VStr "C"))]).
Defined.

(** ** MongoDBClient: connection handling *)

Section ClientFacts.
Context (env : Env).

Lemma client_wf_init uri database_name :
  client_wf (MongoDBClient_init uri database_name).
Proof. reflexivity. Qed.

Lemma Database_new_InvalidName name e :
  Database_new name = Some e → exn_cls e = InvalidName.
Proof. unfold Database_new. intros H. repeat case_match; by simplify_eq. Qed.

Lemma Collection_new_InvalidName name e :
  Collection_new name = Some e → exn_cls e = InvalidName.
Proof. unfold Collection_new. intros H. repeat case_match; by simplify_eq. Qed.

Lemma Database_new_Exception name e :
  Database_new name = Some e → is_Exception e = true.
Proof.
  intros H%Database_new_InvalidName. unfold is_Exception. by rewrite H.
Qed.

Lemma Collection_new_Exception name e :
  Collection_new name = Some e → is_Exception e = true.
Proof.
  intros H%Collection_new_InvalidName. unfold is_Exception. by rewrite H.
Qed.

Lemma client_wf_db_of_client c : client_wf c → db_of_client c.
Proof.
  unfold client_wf, db_of_client. intros Hwf d Hd. rewrite Hd in Hwf.
  destruct (_client c); simplify_eq/=. done.
Qed.

Lemma connect_wf st :
  client_wf (mongo st) →
  Database_new (_database_name (mongo st)) = None →
  client_wf (mongo (connect env st).2).
Proof.
  intros Hwf Hname. unfold connect.
  destruct (_client (mongo st)) eqn:Hc; [done|].
  destruct (MongoClient_new env _); [done|]. rewrite Hname. reflexivity.
Qed.

Lemma connect_db_of_client st :
  db_of_client (mongo st) → db_of_client (mongo (connect env st).2).
Proof.
  intros Hdb. unfold connect.
  destruct (_client (mongo st)) eqn:Hc; [done|].
  destruct (MongoClient_new env _); [done|].
  destruct (Database_new _); simpl.
  - intros d Hd. simpl in *. destruct (Hdb d Hd) as [Hcl _]. congruence.
  - intros d [= <-]. done.
Qed.

Lemma disconnect_wf st :
  client_wf (mongo st) → client_wf (mongo (disconnect st).2).
Proof.
  intros Hwf. unfold disconnect.
  destruct (_client (mongo st)) eqn:Hc; [reflexivity|done].
Qed.

(** Reading the [db] property connects a client that is not connected. *)
Lemma db_reconnects st :
  can_connect env st →
  ∃ d st',
    db env st = (Ok (Some d), st') ∧
    connected (mongo st') ∧ client_wf (mongo st') ∧
    server_calls (world st') = server_calls (world st) ∧
    _uri (mongo st') = _uri (mongo st).
Proof.
  intros (Hwf & Hnew & Hname). unfold db, connect. run_monad.
  pose proof Hwf as Hwf'. unfold client_wf in Hwf'.
  destruct (_db (mongo st)) as [d|] eqn:Hdb; simpl.
  - exists d, st. rewrite Hdb. split; [done|]. split_and!; try done.
    split; [|by eexists].
    destruct (_client (mongo st)); [by eexists|done].
  - destruct (_client (mongo st)) eqn:Hc; [done|].
    rewrite Hnew, Hname. simpl. eexists _, _. split; [done|].
    repeat split; simpl; by eauto.
Qed.

(** C8. [connect] and [disconnect] are idempotent: [connect] on a connected
    client changes nothing and keeps the handle, and a second [connect]
    never changes what the first left; [disconnect] closes the connection
    and clears both cached handles, and a second [disconnect] changes
    nothing. *)
Theorem connect_disconnect_idempotent (st : State) :
  (∀ h, _client (mongo st) = Some h → connect env st = (Ok tt, st)) ∧
  (connect env (connect env st).2).2 = (connect env st).2 ∧
  (∀ h, _client (mongo st) = Some h →
     ∃ st', disconnect st = (Ok tt, st') ∧
       _client (mongo st') = None ∧ _db (mongo st') = None ∧
       h ∈ closed_handles (world st') ∧ h ∉ open_handles (world st')) ∧
  disconnect (disconnect st).2 = (Ok tt, (disconnect st).2).
Proof.
  split_and!.
  - intros h Hh. unfold connect. by rewrite Hh.
  - unfold connect.
    destruct (_client (mongo st)) eqn:Hc.
    + simpl. by rewrite Hc.
    + destruct (MongoClient_new env _) eqn:Hnew; simpl.
      * by rewrite Hc, Hnew.
      * by destruct (Database_new _).
  - intros h Hh. unfold disconnect. rewrite Hh.
    eexists. split; [done|]. simpl. split_and!; try done.
    + by left.
    + rewrite list_elem_of_filter. by intros [? _].
  - unfold disconnect.
    destruct (_client (mongo st)) eqn:Hc; simpl; [done|].
    by rewrite Hc.
Qed.

(** C9. Every data operation goes through the [db] property, which
    connects a client that is not connected.  For a usable client (its two
    cached handles go together, as [__init__], a successful [connect] and
    [disconnect] leave them; [MongoClient(uri)] accepts the URI and the
    driver the database name), after the operation the client is
    connected, whatever the operation itself returned.  If the driver
    accepts what the operation hands it, [get_collection] succeeds and
    every other operation got as far as sending its request to the server;
    if not, the operation raises and nothing is sent: the client is
    connected all the same. *)
Theorem data_operation_reconnects (op : data_op) (st : State) :
  can_connect env st →
  ∃ r st',
    run_data_op env op st = (r, st') ∧
    connected (mongo st') ∧ client_wf (mongo st') ∧
    (accepted op →
     if is_get_collection op then r = Ok tt
     else ∃ request,
       server_calls (world st') = server_calls (world st) ++ [request]) ∧
    (¬ accepted op →
     ∃ e, r = Raise e ∧ is_Exception e = true ∧
       server_calls (world st') = server_calls (world st)).
Proof.
  intros Hcan.
  destruct (db_reconnects st Hcan) as (d & st1 & Hdb & Hconn & Hwf1 & Hcalls & _).
  destruct op; simpl;
    unfold get_collection, list_collections, create_collection,
      collection_exists, list_collections, insert_document, insert_documents,
      find_documents, delete_documents, create_vector_search_index,
      vector_search, get_collection, insert_one, insert_many, server_call;
    run_monad; rewrite Hdb; simpl; rewrite <-?Hcalls;
    repeat (case_match; simplify_eq/=);
    eexists _, _; (split; [reflexivity|]); simpl;
    (split; [done|]); (split; [done|]).
  all: try (split; [by eauto|]; intros Hno; by destruct Hno).
  all: split; [intros Hacc; by (discriminate Hacc || destruct Hacc)|].
  all: intros _; eexists; split_and!;
    [reflexivity|first [reflexivity|by eapply Collection_new_Exception]|done].
Qed.

End ClientFacts.

Lemma connect_disconnect_idempotent_witness :
  connect Demo.env (connect Demo.env Demo.state0).2
    = (Ok tt, (connect Demo.env Demo.state0).2) ∧
  ∃ st', disconnect (connect Demo.env Demo.state0).2 = (Ok tt, st') ∧
    _client (mongo st') = None ∧ _db (mongo st') = None ∧
    0%nat ∈ closed_handles (world st') ∧ 0%nat ∉ open_handles (world st').
Proof.
  pose proof (connect_disconnect_idempotent Demo.env
                (connect Demo.env Demo.state0).2) as (H1 & _ & H3 & _).
  split.
  - apply (H1 0%nat). reflexivity.
  - apply (H3 0%nat). reflexivity.
Defined.

Lemma data_operation_reconnects_witness :
  ∃ r st',
    run_data_op Demo.env (InsertDocument "vectors" {["content" := VStr "A"]})
      (disconnect (connect Demo.env Demo.state0).2).2 = (r, st') ∧
    connected (mongo st') ∧ client_wf (mongo st') ∧
    ∃ request,
      server_calls (world st')
      = server_calls (world (disconnect (connect Demo.env Demo.state0).2).2)
          ++ [request].
Proof.
  destruct (data_operation_reconnects Demo.env
              (InsertDocument "vectors" {["content" := VStr "A"]})
              (disconnect (connect Demo.env Demo.state0).2).2)
    as (r & st' & Hrun & Hconn & Hwf & Haccepted & _).
  - split_and!; reflexivity.
  - exists r, st'. split_and!; try done. apply Haccepted. reflexivity.
Defined.

(** ** SemanticSearch: searching *)

Section SearchFacts.
Context (env : Env).

Lemma generate_ok g text item rest st :
  embeddings_create env (single_request g text) = Ok (item :: rest) →
  generate env g text st = (Ok (embedding item), sent (single_request g text) st).
Proof.
  intros Hreq. unfold generate, embeddings_create_call, single_request in *.
  run_monad. by rewrite Hreq.
Qed.

Lemma generate_raise g text e st :
  embeddings_create env (single_request g text) = Raise e →
  generate env g text st = (Raise e, sent (single_request g text) st).
Proof.
  intros Hreq. unfold generate, embeddings_create_call, single_request in *.
  run_monad. by rewrite Hreq.
Qed.

Lemma generate_no_item g text st :
  embeddings_create env (single_request g text) = Ok [] →
  generate env g text st
  = (Raise (Exn IndexError "list index out of range"),
     sent (single_request g text) st).
Proof.
  intros Hreq. unfold generate, embeddings_create_call, single_request in *.
  run_monad. by rewrite Hreq.
Qed.

Lemma can_connect_sent req st : can_connect env st → can_connect env (sent req st).
Proof. done. Qed.

Lemma get_collection_ok c st :
  can_connect env st →
  Collection_new c = None →
  get_collection env c st = (Ok c, connected_state env st).
Proof.
  intros (Hwf & Hnew & Hname) Hc. unfold connected_state, get_collection, db, connect.
  run_monad. unfold client_wf in Hwf.
  destruct (_db (mongo st)) as [d|] eqn:Hdb; simpl.
  - rewrite Hdb, Hc. by destruct (_client (mongo st)).
  - destruct (_client (mongo st)) eqn:Hcl; [done|].
    by rewrite Hnew, Hname, Hc.
Qed.

(** A name the driver refuses: [InvalidName] is raised once the client is
    connected, and nothing is sent. *)
Lemma get_collection_refused c e st :
  can_connect env st →
  Collection_new c = Some e →
  get_collection env c st = (Raise e, connected_state env st).
Proof.
  intros (Hwf & Hnew & Hname) Hc. unfold connected_state, get_collection, db, connect.
  run_monad. unfold client_wf in Hwf.
  destruct (_db (mongo st)) as [d|] eqn:Hdb; simpl.
  - rewrite Hdb, Hc. by destruct (_client (mongo st)).
  - destruct (_client (mongo st)) eqn:Hcl; [done|].
    by rewrite Hnew, Hname, Hc.
Qed.

Lemma connected_state_collections st :
  collections (world (connected_state env st)) = collections (world st).
Proof.
  unfold connected_state, connect.
  destruct (_client (mongo st)); [done|].
  destruct (MongoClient_new env _); [done|]. by destruct (Database_new _).
Qed.

Lemma connected_state_server_calls st :
  server_calls (world (connected_state env st)) = server_calls (world st).
Proof.
  unfold connected_state, connect.
  destruct (_client (mongo st)); [done|].
  destruct (MongoClient_new env _); [done|]. by destruct (Database_new _).
Qed.

Lemma connected_state_api_calls st :
  api_calls (world (connected_state env st)) = api_calls (world st).
Proof.
  unfold connected_state, connect.
  destruct (_client (mongo st)); [done|].
  destruct (MongoClient_new env _); [done|]. by destruct (Database_new _).
Qed.

Lemma connected_state_next_oid st :
  next_oid (world (connected_state env st)) = next_oid (world st).
Proof.
  unfold connected_state, connect.
  destruct (_client (mongo st)); [done|].
  destruct (MongoClient_new env _); [done|]. by destruct (Database_new _).
Qed.

Lemma connected_state_can_connect st :
  can_connect env st → can_connect env (connected_state env st).
Proof.
  intros (Hwf & Hnew & Hname). split_and!.
  - by apply connect_wf.
  - unfold connected_state, connect.
    destruct (_client (mongo st)); [done|].
    by rewrite Hnew, Hname.
  - unfold connected_state, connect.
    destruct (_client (mongo st)); [done|].
    by rewrite Hnew, Hname.
Qed.

(** [vector_search] on a usable client whose request the server accepts. *)
Lemma vector_search_ok c i f qv limit num_candidates fq st :
  let pipeline :=
    vector_search_pipeline i f qv
      (default vector_search_default_limit limit)
      (default vector_search_default_num_candidates num_candidates) fq in
  can_connect env st →
  Collection_new c = None →
  server_fault env (OpAggregate c pipeline) = None →
  vector_search env c i f qv limit num_candidates fq st
  = (Ok (aggregate_rows env pipeline (collection_rows c (world st))),
     MkState (mongo (connected_state env st))
       (log_server (OpAggregate c pipeline) (world (connected_state env st)))).
Proof.
  intros pipeline Hcan Hname Hfault. unfold vector_search, server_call. run_monad.
  rewrite get_collection_ok by done. fold pipeline. rewrite Hfault. simpl.
  unfold collection_rows. simpl. by rewrite connected_state_collections.
Qed.

(** The request [vector_search] sends, whether or not the server accepts it. *)
Lemma vector_search_request c i f qv limit num_candidates fq st :
  can_connect env st →
  Collection_new c = None →
  server_calls (world (vector_search env c i f qv limit num_candidates fq st).2)
  = server_calls (world st)
    ++ [OpAggregate c
          (vector_search_pipeline i f qv
             (default vector_search_default_limit limit)
             (default vector_search_default_num_candidates num_candidates) fq)].
Proof.
  intros Hcan Hname. unfold vector_search, server_call. run_monad.
  rewrite get_collection_ok by done.
  destruct (server_fault env _); simpl; by rewrite connected_state_server_calls.
Qed.

End SearchFacts.

Section SearchProperties.
Context (env : Env).

(** C3 (amended). When [num_candidates] is not supplied, [vector_search]
    sends [numCandidates = 100] whatever the limit, and [search] never
    supplies it: the default covers the limit exactly when the limit is at
    most 100 (as the default limit 10 is).  A request is sent for a
    collection name the driver accepts. *)
Theorem vector_search_default_num_candidates_is_100
    (ss : SemanticSearch) (c i f : string) (qv : list float)
    (query : value) (limit : option Z) (collection_name index_name : option string)
    (fq : option record) (item : embedding_item) (rest : list embedding_item)
    (st : State) :
  can_connect env st →
  Collection_new c = None →
  Collection_new (str_or collection_name (_default_collection ss)) = None →
  embeddings_create env (single_request (_embedding_generator ss) query)
    = Ok (item :: rest) →
  (∃ stage,
     last (server_calls (world (vector_search env c i f qv limit None fq st).2))
       ≫= request_stage = Some stage ∧
     vs_limit stage = default vector_search_default_limit limit ∧
     vs_numCandidates stage = 100 ∧
     (vs_limit stage ≤ vs_numCandidates stage ↔ vs_limit stage ≤ 100)) ∧
  (∃ stage,
     last (server_calls
             (world (search env ss query limit collection_name index_name fq st).2))
       ≫= request_stage = Some stage ∧
     vs_limit stage = default search_default_limit limit ∧
     vs_numCandidates stage = 100 ∧
     (vs_limit stage ≤ vs_numCandidates stage ↔ vs_limit stage ≤ 100)).
Proof.
  intros Hcan Hc Hcollection Hgen. split.
  - rewrite vector_search_request by done. rewrite last_snoc. simpl.
    eexists. split; [done|]. simpl. split_and!; try done; lia.
  - unfold search. run_monad. rewrite (generate_ok env _ _ item rest) by done.
    match goal with
    | |- context [vector_search env ?c ?i ?f ?q ?l ?n ?fq ?s] =>
        pose proof (vector_search_request env c i f q l n fq s
                      (can_connect_sent env _ st Hcan) Hcollection) as Hreq;
        destruct (vector_search env c i f q l n fq s) as [[rows|e] st2]
    end; simpl in *; rewrite Hreq, last_snoc; simpl;
      (eexists; split; [done|]; simpl; split_and!; try done; lia).
Qed.

(** C4. Whatever records the vector search returns, every object that
    [search] returns has a string under [_id], and nothing under the
    embedding field; if the embedding field is [_id] itself, what is there
    is that string, not a vector. *)
Theorem search_strips_embedding (ss : SemanticSearch) (query : value)
    (limit : option Z) (collection_name index_name : option string)
    (filter_query : option record) (st st' : State) (results : list record) :
  search env ss query limit collection_name index_name filter_query st
    = (Ok results, st') →
  ∀ r, r ∈ results →
    (∃ s, r !! "_id" = Some (VStr s)) ∧
    (_vector_field ss ≠ "_id" → r !! _vector_field ss = None) ∧
    (∀ v, r !! _vector_field ss = Some v → ∃ s, v = VStr s).
Proof.
  unfold search. run_monad. intros Hrun r Hr.
  destruct (generate env _ query st) as [[qv|e] st1]; [|done].
  destruct (vector_search env _ _ _ qv _ _ _ st1) as [[rows|e] st2]; [|done].
  simplify_eq. apply list_elem_of_fmap in Hr as (raw & -> & _).
  unfold format_result. split_and!.
  - eexists. apply lookup_insert_eq.
  - intros Hne. rewrite lookup_insert_ne by done. apply lookup_delete_eq.
  - intros v. destruct (decide (_vector_field ss = "_id")) as [->|Hne].
    + rewrite lookup_insert_eq. intros [= <-]. by eexists.
    + rewrite lookup_insert_ne by done. by rewrite lookup_delete_eq.
Qed.

(** C5. If the index matches [M] records and [M] is less than the limit,
    [search] returns exactly [M] results: it does not raise, and the list
    is not padded to the limit.  (The collection is one the driver
    accepts by name, as an indexed collection is.) *)
Theorem search_underfill (ss : SemanticSearch) (query : value) (L : Z)
    (collection_name index_name : option string) (filter_query : option record)
    (item : embedding_item) (rest : list embedding_item) (M : nat) (st : State) :
  let collection := str_or collection_name (_default_collection ss) in
  let pipeline :=
    vector_search_pipeline (str_or index_name (_default_index ss))
      (_vector_field ss) (embedding item) L
      vector_search_default_num_candidates filter_query in
  can_connect env st →
  Collection_new collection = None →
  embeddings_create env (single_request (_embedding_generator ss) query)
    = Ok (item :: rest) →
  server_fault env (OpAggregate collection pipeline) = None →
  length (aggregate_rows env pipeline (collection_rows collection (world st))) = M →
  Z.of_nat M < L →
  ∃ results st',
    search env ss query (Some L) collection_name index_name filter_query st
      = (Ok results, st') ∧
    length results = M ∧ Z.of_nat (length results) ≠ L.
Proof.
  intros collection pipeline Hcan Hname Hgen Hfault Hrows HML.
  unfold search. run_monad. rewrite (generate_ok env _ _ item rest) by done.
  rewrite vector_search_ok by done. simpl.
  eexists _, _. split; [done|].
  rewrite length_fmap. fold collection pipeline. unfold collection_rows in *.
  simpl. rewrite Hrows. split; [done|lia].
Qed.

End SearchProperties.

Lemma search_underfill_witness :
  ∃ results st',
    search Demo.env Demo.engine (VStr "A") (Some 50) None None None
      DemoStore.state3 = (Ok results, st') ∧
    length results = 3%nat ∧ Z.of_nat (length results) ≠ 50.
Proof.
  apply (search_underfill Demo.env Demo.engine (VStr "A") 50 None None None
           (EmbeddingItem 0 (Demo.vec 0 (VStr "A"))) [] 3 DemoStore.state3).
  - split_and!; reflexivity.
  - reflexivity.
  - reflexivity.
  - reflexivity.
  - vm_compute. reflexivity.
  - lia.
Defined.

(** A search with limit 200 asks the server for 200 results out of 100
    candidates. *)
Lemma vector_search_default_num_candidates_counterexample :
  ∃ stage,
    last (server_calls
            (world (search Demo.env Demo.engine (VStr "A") (Some 200)
                      None None None DemoStore.state3).2))
      ≫= request_stage = Some stage ∧
    vs_limit stage = 200 ∧
    ¬ (vs_limit stage ≤ vs_numCandidates stage).
Proof.
  eexists. split; [vm_compute; reflexivity|]. simpl. split; [done|lia].
Qed.

Lemma vector_search_default_num_candidates_is_100_witness :
  ∃ stage,
    last (server_calls
            (world (search Demo.env Demo.engine (VStr "A") (Some 3)
                      None None None DemoStore.state3).2))
      ≫= request_stage = Some stage ∧
    vs_limit stage = 3 ∧
    vs_numCandidates stage = 100 ∧
    (vs_limit stage ≤ vs_numCandidates stage ↔ vs_limit stage ≤ 100).
Proof.
  apply (vector_search_default_num_candidates_is_100 Demo.env Demo.engine
           "vectors" "vector_index" "embedding" [] (VStr "A") (Some 3)
           None None None (EmbeddingItem 0 (Demo.vec 0 (VStr "A"))) []
           DemoStore.state3).
  - split_and!; reflexivity.
  - reflexivity.
  - reflexivity.
  - reflexivity.
Defined.

Lemma Ok_returned {A S} (x : outcome (list A) * S) :
  is_Ok x.1 = true → x = (Ok (returned x.1), x.2).
Proof. by destruct x as [[l|e] s]. Qed.

Lemma search_strips_embedding_witness :
  length (returned (search Demo.env Demo.engine (VStr "A") (Some 2) None None
                      None DemoStore.state3).1) = 2%nat ∧
  Forall (λ r : record,
            (∃ s, r !! "_id" = Some (VStr s)) ∧
            ("embedding" ≠ "_id" → r !! "embedding" = None) ∧
            (∀ v, r !! "embedding" = Some v → ∃ s, v = VStr s))
    (returned (search Demo.env Demo.engine (VStr "A") (Some 2) None None None
                 DemoStore.state3).1).
Proof.
  split; [vm_compute; reflexivity|].
  apply Forall_forall. intros r Hr.
  apply (search_strips_embedding Demo.env Demo.engine (VStr "A") (Some 2)
           None None None DemoStore.state3
           (search Demo.env Demo.engine (VStr "A") (Some 2) None None None
              DemoStore.state3).2
           (returned (search Demo.env Demo.engine (VStr "A") (Some 2) None None
                        None DemoStore.state3).1)).
  - apply Ok_returned. vm_compute. reflexivity.
  - exact Hr.
Defined.

(** ** SemanticSearch: indexing *)

Section IndexingFacts.
Context (env : Env).

Lemma with_id_lookup n (doc : record) k v :
  doc !! k = Some v → with_id n doc !! k = Some v.
Proof.
  intros Hk. unfold with_id. destruct (doc !! "_id") eqn:Hid; [done|].
  rewrite lookup_insert_ne; [done|]. intros <-. congruence.
Qed.

(** [insert_document] on a usable client whose request the server accepts. *)
Lemma insert_document_ok c doc st :
  can_connect env st →
  Collection_new c = None →
  server_fault env (OpInsertOne c doc) = None →
  let doc' := with_id (next_oid (world st)) doc in
  ∃ st',
    insert_document env c doc st = (Ok (py_str env (id_of doc')), st') ∧
    collection_rows c (world st') = collection_rows c (world st) ++ [doc'] ∧
    api_calls (world st') = api_calls (world st) ∧
    can_connect env st'.
Proof.
  intros Hcan Hname Hfault doc'.
  unfold insert_document, insert_one, server_call. run_monad.
  rewrite get_collection_ok by done. rewrite Hfault. simpl.
  eexists. split.
  - rewrite connected_state_next_oid. reflexivity.
  - simpl. split_and!.
    + unfold collection_rows. simpl. rewrite lookup_insert_eq. simpl.
      by rewrite connected_state_collections.
    + apply connected_state_api_calls.
    + apply (connected_state_can_connect env st Hcan).
Qed.

(** For a list that is not empty, [insert_many] sends its request. *)
Lemma insert_many_nonempty c docs :
  docs ≠ [] →
  insert_many env c docs
  = (server_call env (OpInsertMany c docs) ;;
     let* n := gets (λ st, next_oid (world st)) in
     let docs' := imap (λ i d, with_id (n + i)%nat d) docs in
     modify_world (λ w,
       set_next_oid (n + length docs)%nat
         (set_collections
            (<[c := collection_rows c w ++ docs']> (collections w)) w)) ;;
     ret (id_of <$> docs')).
Proof. by destruct docs. Qed.

(** [insert_documents] on a usable client whose request the server accepts. *)
Lemma insert_documents_ok c docs st :
  can_connect env st →
  Collection_new c = None →
  docs ≠ [] →
  server_fault env (OpInsertMany c docs) = None →
  let docs' := imap (λ i d, with_id (next_oid (world st) + i) d) docs in
  ∃ st',
    insert_documents env c docs st = (Ok (py_str env <$> (id_of <$> docs')), st') ∧
    collection_rows c (world st') = collection_rows c (world st) ++ docs' ∧
    api_calls (world st') = api_calls (world st).
Proof.
  intros Hcan Hname Hdocs Hfault docs'.
  unfold insert_documents. unfold bind at 1.
  rewrite get_collection_ok by done.
  rewrite insert_many_nonempty by done. unfold server_call. run_monad.
  rewrite Hfault. simpl.
  eexists. split.
  - rewrite connected_state_next_oid. reflexivity.
  - simpl. split.
    + unfold collection_rows. simpl. rewrite lookup_insert_eq. simpl.
      by rewrite connected_state_collections.
    + apply connected_state_api_calls.
Qed.

(** No method of the client talks to the embedding service. *)
Lemma insert_document_api_calls c doc st :
  api_calls (world (insert_document env c doc st).2) = api_calls (world st).
Proof.
  unfold insert_document, insert_one, get_collection, db, connect, server_call.
  run_monad. repeat (case_match; simplify_eq/=); done.
Qed.



(** C1 (amended). [index_document] does not check for empty content: the
    empty string is sent to the embedding provider, in exactly one request.
    If the provider fails, its error is raised and nothing reaches the
    store; if it answers, the record with the empty content is handed to
    [insert_document] like any other. *)
Theorem index_document_empty_content (ss : SemanticSearch)
    (metadata : option record) (collection_name : option string) (st : State) :
  let req := single_request (_embedding_generator ss) (VStr "") in
  let run := index_document env ss (VStr "") metadata collection_name st in
  api_calls (world run.2) = api_calls (world st) ++ [req] ∧
  match embeddings_create env req with
  | Raise e =>
      run.1 = Raise e ∧
      collections (world run.2) = collections (world st) ∧
      server_calls (world run.2) = server_calls (world st)
  | Ok [] =>
      run.1 = Raise (Exn IndexError "list index out of range") ∧
      collections (world run.2) = collections (world st) ∧
      server_calls (world run.2) = server_calls (world st)
  | Ok (item :: _) =>
      run = insert_document env
              (str_or collection_name (_default_collection ss))
              (vector_record ss (VStr "") (embedding item)
                 (VDict (dict_or_empty metadata)))
              (sent req st)
  end.
Proof.
  intros req run. subst run. unfold index_document. run_monad.
  destruct (embeddings_create env req) as [[|item rest]|e] eqn:Hreq.
  - rewrite generate_no_item by done. done.
  - rewrite (generate_ok env _ _ item rest) by done. split; [|done].
    match goal with
    | |- context [insert_document env ?c ?d ?s] =>
        pose proof (insert_document_api_calls c d s) as Hapi;
        destruct (insert_document env c d s) as [r st2]
    end. destruct r; simpl in *; by rewrite Hapi.
  - rewrite (generate_raise env _ _ e) by done. done.
Qed.


End IndexingFacts.

(** With a provider that answers every request, indexing the empty string
    succeeds: the provider is called and a record is inserted. *)
Lemma index_document_empty_content_counterexample :
  let run := index_document Demo.env Demo.engine (VStr "") None None Demo.state0 in
  run.1 = Ok "oid0" ∧
  api_calls (world run.2) = [single_request Demo.generator (VStr "")] ∧
  (λ rec, rec !! "content") <$> collection_rows "vectors" (world run.2)
    = [Some (VStr "")] ∧
  ¬ ∃ e, run = (Raise e, Demo.state0).
Proof.
  split_and!; try (vm_compute; reflexivity).
  intros [e He]. vm_compute in He. discriminate He.
Qed.


(** ** The bulk indexing loop *)

#[local] Instance world_le_preorder : PreOrder world_le.
Proof.
  split.
  - intros w. by split.
  - intros w1 w2 w3 [H1 H1'] [H2 H2']. split.
    + intros c. etrans; [apply H1|apply H2].
    + by etrans.
Qed.

Lemma world_le_rows c rec w w' :
  world_le w w' → rec ∈ collection_rows c w → rec ∈ collection_rows c w'.
Proof. intros [Hle _] Hin. destruct (Hle c) as [k ->]. set_solver. Qed.

Lemma world_le_stdout ev w w' :
  world_le w w' → ev ∈ stdout w → ev ∈ stdout w'.
Proof. intros [_ [k ->]] Hin. set_solver. Qed.

Lemma bind_Ok_inv {A B} (m : M A) (k : A → M B) st b st' :
  bind m k st = (Ok b, st') →
  ∃ a st1, m st = (Ok a, st1) ∧ k a st1 = (Ok b, st').
Proof.
  unfold bind. destruct (m st) as [[a|e] st1]; [|done]. by exists a, st1.
Qed.

Lemma bind_assoc {A B C} (m : M A) (k : A → M B) (k' : B → M C) st :
  bind (bind m k) k' st = bind m (λ a, bind (k a) k') st.
Proof. unfold bind. by destruct (m st) as [[a|e] st1]. Qed.

Section Tame.
Context (env : Env) (Henv : only_Exceptions env).

Lemma tame_ret {A} (a : A) : tame (ret a).
Proof. by intros st. Qed.

Lemma tame_raise {A} e : is_Exception e = true → tame (@raise A e).
Proof. intros He st. split; [done|]. by intros ? [= <-]. Qed.

Lemma tame_gets {A} (f : State → A) : tame (gets f).
Proof. by intros st. Qed.

Lemma tame_bind {A B} (m : M A) (k : A → M B) :
  tame m → (∀ a, tame (k a)) → tame (bind m k).
Proof.
  intros Hm Hk st. unfold bind.
  destruct (Hm st) as [Hle He].
  destruct (m st) as [[a|e] st1]; simpl in *.
  - destruct (Hk a st1) as [Hle' He']. split; [by etrans|done].
  - split; [done|]. intros ? [= <-]. by apply He.
Qed.

Lemma tame_print ev : tame (print ev).
Proof.
  intros st. split; [|done]. split; simpl; [done|]. by apply prefix_app_r.
Qed.

Lemma tame_utcnow : tame utcnow.
Proof. by intros st. Qed.

Lemma tame_open_read p : tame (open_read env p).
Proof.
  intros st. split; [done|]. simpl. intros e He.
  by apply Henv in He.
Qed.

Lemma tame_connect : tame (connect env).
Proof.
  intros st. unfold connect.
  destruct (_client (mongo st)); [done|].
  destruct (MongoClient_new env _) eqn:Hnew.
  { split; [done|]. simpl. intros ? [= <-]. by apply Henv in Hnew. }
  destruct (Database_new _) eqn:Hname; [|done].
  split; [done|]. simpl. intros ? [= <-]. by apply Database_new_Exception in Hname.
Qed.

Lemma tame_get_collection c : tame (get_collection env c).
Proof.
  unfold get_collection, db.
  apply tame_bind.
  2:{ intros [d|]; [|by apply tame_raise].
      destruct (Collection_new c) eqn:Hname; [|apply tame_ret].
      apply tame_raise. by apply Collection_new_Exception in Hname. }
  apply tame_bind; [apply tame_gets|]. intros d.
  apply tame_bind; [|intros; apply tame_gets].
  destruct d; [apply tame_ret|apply tame_connect].
Qed.

Lemma tame_server_call op : tame (server_call env op).
Proof.
  intros st. unfold server_call.
  destruct (server_fault env op) eqn:Hop; [|done].
  split; [done|]. simpl. intros ? [= <-]. by apply Henv in Hop.
Qed.

Lemma tame_append_row c doc n :
  tame (modify_world (λ w,
    set_next_oid n
      (set_collections (<[c := collection_rows c w ++ [doc]]> (collections w)) w))).
Proof.
  intros st. split; [|done]. split; simpl; [|done].
  intros c'. unfold collection_rows at 2. simpl.
  destruct (decide (c = c')) as [<-|Hne].
  - rewrite lookup_insert_eq. simpl. by apply prefix_app_r.
  - by rewrite lookup_insert_ne.
Qed.

Lemma tame_insert_document c doc : tame (insert_document env c doc).
Proof.
  unfold insert_document, insert_one.
  apply tame_bind; [apply tame_get_collection|]. intros c'.
  apply tame_bind; [|intros; apply tame_ret].
  apply tame_bind; [apply tame_server_call|]. intros _.
  apply tame_bind; [apply tame_gets|]. intros n.
  apply tame_bind; [apply tame_append_row|]. intros _. apply tame_ret.
Qed.

Lemma tame_generate g text : tame (generate env g text).
Proof.
  unfold generate. apply tame_bind.
  - intros st. split; [done|]. simpl. intros e He. by apply Henv in He.
  - intros [|item data]; [by apply tame_raise|apply tame_ret].
Qed.

Lemma tame_index_document ss content metadata collection_name :
  tame (index_document env ss content metadata collection_name).
Proof.
  unfold index_document.
  apply tame_bind; [apply tame_generate|]. intros e. apply tame_insert_document.
Qed.

Lemma tame_process_file ss dc vc f : tame (process_file env ss dc vc f).
Proof.
  unfold process_file.
  apply tame_bind; [apply tame_open_read|]. intros raw.
  case_bool_decide.
  - apply tame_bind; [apply tame_print|]. intros _. apply tame_ret.
  - repeat first
      [ apply tame_ret | apply tame_print | apply tame_utcnow
      | apply tame_insert_document | apply tame_index_document
      | apply tame_bind | intros ? ].
Qed.

Lemma tame_report_error f e : tame (report_error f e).
Proof.
  unfold report_error.
  repeat first [apply tame_ret | apply tame_print | apply tame_bind | intros ?].
Qed.

(** One turn of the loop never raises. *)
Lemma try_process_file_Ok ss dc vc f st :
  ∃ indexed st',
    try_except (process_file env ss dc vc f) (report_error f) st
      = (Ok indexed, st') ∧
    world_le (world st) (world st').
Proof.
  unfold try_except.
  destruct (tame_process_file ss dc vc f st) as [Hle He].
  destruct (process_file env ss dc vc f st) as [[b|e] st1]; simpl in *.
  - by exists b, st1.
  - rewrite (He e) by done.
    destruct (tame_report_error f e st1) as [Hle' _].
    eexists false, _. split; [reflexivity|]. by etrans.
Qed.

(** The loop runs to its end, whatever happens to the files. *)
Lemma index_loop_Ok ss dc vc files n st :
  ∃ count st',
    index_loop env ss dc vc files n st = (Ok count, st') ∧
    world_le (world st) (world st').
Proof.
  revert n st. induction files as [|f files IH]; intros n st; simpl.
  - by exists n, st.
  - unfold bind at 1.
    destruct (try_process_file_Ok ss dc vc f st) as (b & st1 & -> & Hle).
    destruct (IH (if b then S n else n) st1) as (count & st' & -> & Hle').
    exists count, st'. split; [done|]. by etrans.
Qed.

Lemma index_loop_app ss dc vc pre post n st :
  index_loop env ss dc vc (pre ++ post) n st
  = bind (index_loop env ss dc vc pre n)
         (λ n', index_loop env ss dc vc post n') st.
Proof.
  revert n st. induction pre as [|f pre IH]; intros n st; simpl; [done|].
  rewrite bind_assoc. unfold bind at 1 2.
  destruct (try_except _ _ st) as [[b|e] st1]; [|done].
  apply IH.
Qed.

Lemma insert_document_In c doc id st st' :
  insert_document env c doc st = (Ok id, st') →
  ∃ n, id = py_str env (id_of (with_id n doc)) ∧
       with_id n doc ∈ collection_rows c (world st').
Proof.
  unfold insert_document, insert_one, get_collection, db, connect, server_call.
  run_monad. intros Hrun.
  repeat (case_match; simplify_eq/=);
    eexists; (split; [reflexivity|]);
    unfold collection_rows; simpl; rewrite lookup_insert_eq; simpl;
    apply elem_of_app; right; by apply list_elem_of_singleton.
Qed.

Lemma generate_Ok_inv g text e st st' :
  generate env g text st = (Ok e, st') →
  ∃ item rest,
    embeddings_create env (single_request g text) = Ok (item :: rest) ∧
    e = embedding item.
Proof.
  unfold generate, embeddings_create_call, single_request. run_monad.
  destruct (embeddings_create env _) as [[|item data]|e']; [done| |done].
  intros [= <- <-]. by eexists _, _.
Qed.

Lemma world_le_step {A} (m : M A) st r st' :
  tame m → m st = (r, st') → world_le (world st) (world st').
Proof. intros Hm Hrun. destruct (Hm st) as [Hle _]. by rewrite Hrun in Hle. Qed.

(** A file whose processing reaches [indexed_count += 1] has its two
    records in the store. *)
Lemma process_file_indexed ss dc vc f st st' :
  process_file env ss dc vc f st = (Ok true, st') →
  indexed_in env ss dc vc f (world st').
Proof.
  unfold process_file. intros H.
  apply bind_Ok_inv in H as (raw & st1 & Hread & H).
  unfold open_read in Hread. simplify_eq.
  case_bool_decide as Hempty.
  { apply bind_Ok_inv in H as (? & ? & _ & H). by inversion H. }
  apply bind_Ok_inv in H as ([] & st2 & Hp1 & H).
  apply bind_Ok_inv in H as (now & st3 & Hnow & H).
  apply bind_Ok_inv in H as (doc_id & st4 & Hdoc & H).
  apply insert_document_In in Hdoc as (n & -> & Hdoc).
  assert (world_le (world st4) (world st')) as Hle.
  { eapply world_le_step; [|exact H].
    repeat first
      [ apply tame_ret | apply tame_print | apply tame_utcnow
      | apply tame_index_document | apply tame_bind | intros ? ]. }
  apply bind_Ok_inv in H as ([] & st5 & Hp2 & H).
  apply bind_Ok_inv in H as (now' & st6 & Hnow' & H).
  apply bind_Ok_inv in H as (vector_id & st7 & Hvec & H).
  unfold index_document in Hvec.
  apply bind_Ok_inv in Hvec as (e & st8 & Hgen & Hvec).
  apply generate_Ok_inv in Hgen as (item & rest & Hgen & ->).
  apply insert_document_In in Hvec as (n' & _ & Hvec).
  assert (world_le (world st7) (world st')) as Hle'.
  { eapply world_le_step; [|exact H].
    repeat first [apply tame_ret | apply tame_print | apply tame_bind | intros ?]. }
  exists raw, n, n', item, rest, now, now'. split; [done|].
  split; [done|]. split.
  - exact (world_le_rows _ _ _ _ Hle Hdoc).
  - exact (world_le_rows _ _ _ _ Hle' Hvec).
Qed.

End Tame.

Section BulkIndexing.
Context (env : Env) (Henv : only_Exceptions env).

Lemma indexed_in_mono ss dc vc f w w' :
  world_le w w' → indexed_in env ss dc vc f w → indexed_in env ss dc vc f w'.
Proof.
  intros Hle (raw & n & n' & item & rest & now & now' & Hread & Hgen & Hdoc & Hvec).
  exists raw, n, n', item, rest, now, now'. split; [done|]. split; [done|].
  split; by eapply world_le_rows.
Qed.

(** An empty file is reported and skipped: nothing is stored for it, and
    neither service is called. *)
Lemma process_file_skipped ss dc vc f st st' :
  process_file env ss dc vc f st = (Ok false, st') →
  untouched st st' ∧ EvSkippingEmpty (path_name f) ∈ stdout (world st').
Proof.
  unfold process_file. intros H.
  apply bind_Ok_inv in H as (raw & st1 & Hread & H).
  unfold open_read in Hread. injection Hread as _ <-.
  case_bool_decide.
  - unfold bind, print, modify_world, ret in H. simplify_eq/=.
    split; [done|].
    apply elem_of_app. right. by apply list_elem_of_singleton.
  - repeat (apply bind_Ok_inv in H as (? & ? & _ & H)). by inversion H.
Qed.

(** [indexed_count += 1] is reached exactly for a file that was read and
    is not empty after [strip()]. *)
Lemma process_file_flag ss dc vc f st b st' :
  process_file env ss dc vc f st = (Ok b, st') →
  ∃ raw, read_text env f = Ok raw ∧ b = negb (bool_decide (strip raw = "")).
Proof.
  unfold process_file. intros H.
  apply bind_Ok_inv in H as (raw & st1 & Hread & H).
  unfold open_read in Hread. exists raw. split; [by simplify_eq|].
  case_bool_decide.
  - apply bind_Ok_inv in H as (? & ? & _ & H). by inversion H.
  - repeat (apply bind_Ok_inv in H as (? & ? & _ & H)). by inversion H.
Qed.

Lemma process_file_outcome ss dc vc f st b st' :
  process_file env ss dc vc f st = (Ok b, st') →
  ∃ raw, read_text env f = Ok raw ∧
    if bool_decide (strip raw = "")
    then b = false ∧ untouched st st' ∧
         EvSkippingEmpty (path_name f) ∈ stdout (world st')
    else b = true ∧ indexed_in env ss dc vc f (world st').
Proof.
  intros Hrun.
  destruct (process_file_flag _ _ _ _ _ _ _ Hrun) as (raw & Hread & ->).
  exists raw. split; [done|]. case_bool_decide; simpl in Hrun.
  - split; [done|]. by eapply process_file_skipped.
  - split; [done|]. by eapply process_file_indexed.
Qed.

Lemma try_process_file_outcome ss dc vc f st indexed st' :
  try_except (process_file env ss dc vc f) (report_error f) st
    = (Ok indexed, st') →
  turn_outcome env ss dc vc f st (world st').
Proof.
  unfold try_except, turn_outcome.
  destruct (tame_process_file env Henv ss dc vc f st) as [_ He].
  destruct (process_file env ss dc vc f st) as [[b|e] st1] eqn:Hrun;
    simpl in *.
  - intros [= -> ->]. by eapply process_file_outcome.
  - rewrite (He e) by done.
    unfold report_error, bind, print, modify_world, ret. simpl.
    intros [= <- <-]. simpl. rewrite <-app_assoc.
    apply elem_of_app. right. by left.
Qed.

Lemma turn_outcome_mono ss dc vc f reached w w' :
  world_le w w' → turn_outcome env ss dc vc f reached w →
  turn_outcome env ss dc vc f reached w'.
Proof.
  unfold turn_outcome. intros Hle.
  destruct (process_file env ss dc vc f reached) as [[b|e] st1].
  - intros (raw & Hread & H). exists raw. split; [done|].
    case_bool_decide.
    + destruct H as (Hb & Hsame & Hlog). split_and!; [done..|].
      by eapply world_le_stdout.
    + destruct H as [Hb Hin]. split; [done|]. by eapply indexed_in_mono.
  - by apply world_le_stdout.
Qed.

(** The loop, file by file: whatever happened to the files before [f], the
    loop reaches [f], and what the turn of [f] leaves is there at the end. *)
Lemma index_loop_isolates ss dc vc pre f post n st count st' :
  index_loop env ss dc vc (pre ++ f :: post) n st = (Ok count, st') →
  turn_outcome env ss dc vc f (index_loop env ss dc vc pre n st).2 (world st').
Proof.
  rewrite index_loop_app. unfold bind at 1.
  destruct (index_loop_Ok env Henv ss dc vc pre n st) as (n1 & st1 & -> & _).
  simpl. unfold bind at 1.
  destruct (try_process_file_Ok env Henv ss dc vc f st1)
    as (b & st2 & Hturn & _).
  rewrite Hturn. intros Hrest.
  destruct (index_loop_Ok env Henv ss dc vc post (if b then S n1 else n1) st2)
    as (count' & st'' & Hrest' & Hle).
  rewrite Hrest in Hrest'. simplify_eq.
  eapply turn_outcome_mono; [exact Hle|].
  by eapply try_process_file_outcome.
Qed.

End BulkIndexing.

(** C7 (amended). Whatever files fail with an [Exception],
    [index_documents_from_folder] runs to its end: for every file of the
    listing, the loop reaches it; a file whose processing raised has its
    error in the log; a file whose processing did not raise was read, and
    it is counted and has its document and vector records in the store,
    unless it is empty after [strip()]: then it has been reported as
    skipped, it is not counted, and its turn stored nothing and called
    neither the embedding provider nor the server. *)
Theorem bulk_indexing_isolates_failures (env : Env) (folder_path : string)
    (ss : SemanticSearch) (documents_collection vectors_collection : string)
    (text_files : list Path) (st : State) :
  only_Exceptions env →
  rglob_txt env folder_path = Some text_files →
  ∃ st',
    index_documents_from_folder env folder_path ss documents_collection
      vectors_collection st = (Ok tt, st') ∧
    ∀ pre f post, text_files = pre ++ f :: post →
      let reached :=
        (index_loop env ss documents_collection vectors_collection pre 0
           (print (EvFound (length text_files)) st).2).2 in
      match process_file env ss documents_collection vectors_collection f
              reached with
      | (Raise e, _) => EvError (path_name f) e ∈ stdout (world st')
      | (Ok indexed, after) =>
          ∃ raw, read_text env f = Ok raw ∧
            if bool_decide (strip raw = "")
            then indexed = false ∧ untouched reached after ∧
                 EvSkippingEmpty (path_name f) ∈ stdout (world st')
            else indexed = true ∧
                 indexed_in env ss documents_collection vectors_collection f
                   (world st')
      end.
Proof.
  intros Henv Hfiles. unfold index_documents_from_folder. rewrite Hfiles.
  destruct text_files as [|f0 files] eqn:Hlist.
  { eexists. split; [reflexivity|]. intros [|] ???; discriminate. }
  rewrite <-Hlist. unfold bind at 1. simpl.
  set (st0 := MkState _ _). unfold bind at 1.
  destruct (index_loop_Ok env Henv ss documents_collection vectors_collection
              text_files 0 st0) as (count & st1 & Hloop & _).
  rewrite Hloop. eexists. split; [reflexivity|].
  intros pre f post Hsplit.
  change (turn_outcome env ss documents_collection vectors_collection f
            (index_loop env ss documents_collection vectors_collection pre 0 st0).2
            (world (print (EvComplete count (length text_files)) st1).2)).
  eapply (turn_outcome_mono env); [apply (tame_print (EvComplete _ _) st1)|].
  rewrite Hsplit in Hloop.
  by apply (index_loop_isolates env Henv) in Hloop.
Qed.

Lemma Demo_only_Exceptions : only_Exceptions Demo.env.
Proof.
  split_and!; simpl.
  - intros req e. unfold Demo.service. by destruct (req_input req).
  - done.
  - done.
  - intros p e. unfold Demo.read. intros H. repeat case_match; by simplify_eq.
Defined.

Lemma bulk_indexing_isolates_failures_witness :
  ∃ st',
    index_documents_from_folder Demo.env "/data" Demo.engine "documents"
      "vectors" Demo.state0 = (Ok tt, st') ∧
    EvError "b.txt" (Exn UnicodeDecodeError "invalid start byte")
      ∈ stdout (world st') ∧
    indexed_in Demo.env Demo.engine "documents" "vectors"
      (MkPath ["c.txt"] "/data/c.txt") (world st').
Proof.
  destruct (bulk_indexing_isolates_failures Demo.env "/data" Demo.engine
              "documents" "vectors"
              [MkPath ["a.txt"] "/data/a.txt";
               MkPath ["sub"; "b.txt"] "/data/sub/b.txt";
               MkPath ["c.txt"] "/data/c.txt"]
              Demo.state0 Demo_only_Exceptions eq_refl)
    as (st' & Hrun & Hfiles).
  exists st'. split; [exact Hrun|]. split.
  - pose proof (Hfiles [MkPath ["a.txt"] "/data/a.txt"]
                  (MkPath ["sub"; "b.txt"] "/data/sub/b.txt")
                  [MkPath ["c.txt"] "/data/c.txt"] eq_refl) as Hb.
    cbv zeta in Hb.
    match type of Hb with
    | context [process_file ?e ?s ?d ?v ?f ?r] =>
        assert ((process_file e s d v f r).1
                = Raise (Exn UnicodeDecodeError "invalid start byte")) as Hturn
          by (vm_compute; reflexivity);
        destruct (process_file e s d v f r) as [o s']
    end.
    simpl in Hturn. subst o. exact Hb.
  - pose proof (Hfiles [MkPath ["a.txt"] "/data/a.txt";
                        MkPath ["sub"; "b.txt"] "/data/sub/b.txt"]
                  (MkPath ["c.txt"] "/data/c.txt") [] eq_refl) as Hc.
    cbv zeta in Hc.
    match type of Hc with
    | context [process_file ?e ?s ?d ?v ?f ?r] =>
        assert ((process_file e s d v f r).1 = Ok true) as Hturn
          by (vm_compute; reflexivity);
        destruct (process_file e s d v f r) as [o s']
    end.
    simpl in Hturn. subst o.
    destruct Hc as (raw & Hread & Hc).
    injection Hread as <-.
    exact (proj2 (Hc : true = true ∧
                       indexed_in Demo.env Demo.engine "documents" "vectors"
                         (MkPath ["c.txt"] "/data/c.txt") (world st'))).
Defined.

(** Two ways in which the loop does not do what the claim says.  A file
    that is blank after [strip()] does not fail, and is not indexed: the
    job ends normally with an empty store.  And an exception that is not
    an [Exception] ends the job at once: the files after it are not
    reached. *)
Lemma bulk_indexing_counterexample :
  (let run := index_documents_from_folder Demo.env "/blank" Demo.engine
                "documents" "vectors" Demo.state0 in
   run.1 = Ok tt ∧
   stdout (world run.2)
     = [EvFound 1; EvSkippingEmpty "blank.txt"; EvComplete 0 1] ∧
   collections (world run.2) = ∅) ∧
  (let run := index_documents_from_folder Demo.env_interrupted "/data"
                Demo.engine "documents" "vectors" Demo.state0 in
   run.1 = Raise (Exn KeyboardInterrupt "") ∧
   stdout (world run.2) = [EvFound 3] ∧
   collections (world run.2) = ∅).
Proof. split; split_and!; vm_compute; reflexivity. Qed.

(** * Further properties of the retrieval code *)

(** ** EmbeddingGenerator *)

Section GeneratorExtras.
Context (env : Env).

(** X1. Whatever the service returns for a non-empty batch,
    [generate_batch] neither loses nor invents an embedding: its result is
    the embeddings of the response, rearranged so that the indices of their
    items are in non-decreasing order.  A failure of the service is raised
    as it is.  In both cases exactly one request was sent. *)
Theorem generate_batch_rearranges (g : EmbeddingGenerator) (t : value)
    (texts : list value) (st : State) :
  let req := batch_request g (t :: texts) in
  let run := generate_batch env g (t :: texts) st in
  run.2 = sent req st ∧
  match embeddings_create env req with
  | Ok data =>
      ∃ arranged,
        run.1 = Ok (embedding <$> arranged) ∧
        arranged ≡ₚ data ∧
        Sorted (key_le index) arranged ∧
        length (embedding <$> arranged) = length data
  | Raise e => run.1 = Raise e
  end.
Proof.
  intros req run. subst run.
  unfold generate_batch, embeddings_create_call. run_monad.
  fold (batch_request g (t :: texts)). fold req.
  destruct (embeddings_create env req) as [data|e]; simpl; [|done].
  split; [done|]. exists (sorted index data). split_and!.
  - done.
  - apply sorted_perm.
  - apply sorted_Sorted.
  - by rewrite length_fmap, sorted_perm.
Qed.

End GeneratorExtras.

(** ** SemanticSearch: more on indexing *)

Section IndexingExtras.
Context (env : Env).

Lemma generate_batch_sorted g t texts data st :
  embeddings_create env (batch_request g (t :: texts)) = Ok data →
  generate_batch env g (t :: texts) st
  = (Ok (embedding <$> sorted index data), sent (batch_request g (t :: texts)) st).
Proof.
  intros Hservice.
  unfold generate_batch, embeddings_create_call, batch_request in *. run_monad.
  by rewrite Hservice.
Qed.

Lemma zip_length_min {A B} (xs : list A) (ys : list B) :
  length (zip xs ys) = Nat.min (length xs) (length ys).
Proof.
  revert ys. induction xs as [|x xs IH]; intros [|y ys]; simpl; try done.
  by rewrite IH.
Qed.

(** What a successful [insert_document] does to the world. *)
Lemma insert_document_effect c doc st :
  can_connect env st →
  Collection_new c = None →
  server_fault env (OpInsertOne c doc) = None →
  let doc' := with_id (next_oid (world st)) doc in
  ∃ st',
    insert_document env c doc st = (Ok (py_str env (id_of doc')), st') ∧
    collection_rows c (world st') = collection_rows c (world st) ++ [doc'] ∧
    (∀ c', c' ≠ c →
       collection_rows c' (world st') = collection_rows c' (world st)) ∧
    api_calls (world st') = api_calls (world st) ∧
    server_calls (world st') = server_calls (world st) ++ [OpInsertOne c doc] ∧
    next_oid (world st') = S (next_oid (world st)) ∧
    clock (world st') = clock (world st) ∧
    stdout (world st') = stdout (world st) ∧
    can_connect env st'.
Proof.
  intros Hcan Hname Hfault doc'.
  unfold insert_document, insert_one, server_call. run_monad.
  rewrite get_collection_ok by done. rewrite Hfault. simpl.
  eexists. split.
  - rewrite connected_state_next_oid. reflexivity.
  - simpl. unfold collection_rows. simpl. split_and!.
    + rewrite lookup_insert_eq. simpl. by rewrite connected_state_collections.
    + intros c' Hne. rewrite lookup_insert_ne by done.
      by rewrite connected_state_collections.
    + apply connected_state_api_calls.
    + by rewrite connected_state_server_calls.
    + done.
    + unfold connected_state, connect.
      destruct (_client (mongo st)); [done|].
      destruct (MongoClient_new env _); [done|]. by destruct (Database_new _).
    + unfold connected_state, connect.
      destruct (_client (mongo st)); [done|].
      destruct (MongoClient_new env _); [done|]. by destruct (Database_new _).
    + apply (connected_state_can_connect env st Hcan).
Qed.

Lemma insert_documents_api_calls c docs st :
  api_calls (world (insert_documents env c docs st).2) = api_calls (world st).
Proof.
  unfold insert_documents, insert_many, get_collection, db, connect, server_call.
  run_monad. repeat (case_match; simplify_eq/=); done.
Qed.

(** [insert_documents] with an empty list never returns: whatever the
    client, it raises, and nothing is sent or stored.  On a usable client
    what it raises is the driver's [TypeError]. *)
Lemma insert_documents_empty c st :
  let run := insert_documents env c [] st in
  api_calls (world run.2) = api_calls (world st) ∧
  server_calls (world run.2) = server_calls (world st) ∧
  collections (world run.2) = collections (world st) ∧
  (∃ e, run.1 = Raise e) ∧
  (can_connect env st → Collection_new c = None →
   run.1 = Raise (Exn TypeError "documents must be a non-empty list")).
Proof.
  intros run. subst run. split_and!.
  - apply insert_documents_api_calls.
  - unfold insert_documents, insert_many, get_collection, db, connect.
    run_monad. repeat (case_match; simplify_eq/=); done.
  - unfold insert_documents, insert_many, get_collection, db, connect.
    run_monad. repeat (case_match; simplify_eq/=); done.
  - unfold insert_documents, insert_many, get_collection, db, connect.
    run_monad. repeat (case_match; simplify_eq/=); by eexists.
  - intros Hcan Hname. unfold insert_documents. unfold bind at 1.
    by rewrite get_collection_ok.
Qed.

(** X2. [index_documents] pairs documents and embeddings with [zip].  If
    the service answers a batch of [N] documents with [K] items, [K] at
    least one, the store receives [min N K] records and as many ids are
    returned; nothing signals the documents that were left out.  If the
    service answers with no item at all, the list that reaches
    [insert_many] is empty, which the driver refuses: [TypeError] is
    raised, and nothing is sent to the server or stored. *)
Theorem index_documents_truncates (ss : SemanticSearch) (doc : record)
    (documents : list record) (collection_name : option string)
    (data : list embedding_item) (st : State) :
  let collection := str_or collection_name (_default_collection ss) in
  let texts :=
    (λ d, dict_get d "content" (VStr "")) <$> (doc :: documents) in
  can_connect env st →
  Collection_new collection = None →
  embeddings_create env (batch_request (_embedding_generator ss) texts)
    = Ok data →
  (∀ docs, server_fault env (OpInsertMany collection docs) = None) →
  match data with
  | [] =>
      ∃ st',
        index_documents env ss (doc :: documents) collection_name st
          = (Raise (Exn TypeError "documents must be a non-empty list"), st') ∧
        collections (world st') = collections (world st) ∧
        server_calls (world st') = server_calls (world st)
  | _ :: _ =>
      ∃ ids inserted st',
        index_documents env ss (doc :: documents) collection_name st
          = (Ok ids, st') ∧
        collection_rows collection (world st')
          = collection_rows collection (world st) ++ inserted ∧
        length ids = Nat.min (length (doc :: documents)) (length data) ∧
        length inserted = Nat.min (length (doc :: documents)) (length data)
  end.
Proof.
  intros collection texts Hcan Hname Hservice Hfault.
  assert (generate_batch env (_embedding_generator ss) texts st
          = (Ok (embedding <$> sorted index data),
             sent (batch_request (_embedding_generator ss) texts) st)) as Hgen.
  { exact (generate_batch_sorted (_embedding_generator ss)
             (dict_get doc "content" (VStr ""))
             (fmap (M:=list) (λ d : record, dict_get d "content" (VStr ""))
                documents)
             data st Hservice). }
  destruct data as [|item data0] eqn:Hdata.
  - unfold index_documents. fold collection. unfold bind at 1.
    fold texts. rewrite Hgen. simpl.
    pose proof (insert_documents_empty collection
                  (sent (batch_request (_embedding_generator ss) texts) st))
      as (_ & Hcalls & Hcols & _ & Hraise).
    cbv zeta in *.
    destruct (insert_documents env collection [] _) as [r st'] eqn:Hrun.
    simpl in *. exists st'. rewrite Hraise by done. done.
  - rewrite <-Hdata in *.
    assert (sorted index data ≠ []) as Hsorted.
    { intros Hnil. pose proof (sorted_perm index data) as Hperm.
      rewrite Hnil in Hperm. apply Permutation_nil_l in Hperm.
      by rewrite Hdata in Hperm. }
    unfold index_documents. fold collection. unfold bind at 1.
    fold texts. rewrite Hgen.
    match goal with
    | |- context [insert_documents env collection ?ds ?s] =>
        destruct (insert_documents_ok env collection ds s)
          as (st' & -> & Hrows & _); [done|done| |apply Hfault|]
    end.
    { destruct (sorted index data); [done|]. done. }
    eexists _, _, st'. split; [reflexivity|]. split; [exact Hrows|].
    rewrite !length_fmap, length_imap, length_fmap, zip_length_min.
    by rewrite length_fmap, sorted_perm.
Qed.

(** X3. [index_documents([])] fails.  It sends nothing to the embedding
    service and nothing to the server, and it stores nothing; whatever the
    state of the client it raises, and on a usable client, with a
    collection name the driver accepts, what it raises is the driver's
    [TypeError] for an empty [insert_many]. *)
Theorem index_documents_empty (ss : SemanticSearch)
    (collection_name : option string) (st : State) :
  let collection := str_or collection_name (_default_collection ss) in
  let run := index_documents env ss [] collection_name st in
  api_calls (world run.2) = api_calls (world st) ∧
  server_calls (world run.2) = server_calls (world st) ∧
  collections (world run.2) = collections (world st) ∧
  (∃ e, run.1 = Raise e) ∧
  (can_connect env st → Collection_new collection = None →
   run.1 = Raise (Exn TypeError "documents must be a non-empty list")).
Proof.
  intros collection run. subst run. unfold index_documents. run_monad.
  apply insert_documents_empty.
Qed.

(** X4. If the embedding service fails, [index_document] raises that
    error and nothing reaches the store: no request is sent to the server,
    the collections are as before and the client's handles are untouched. *)
Theorem index_document_provider_failure (ss : SemanticSearch) (content : value)
    (metadata : option record) (collection_name : option string) (e : exn)
    (st : State) :
  let req := single_request (_embedding_generator ss) content in
  let run := index_document env ss content metadata collection_name st in
  embeddings_create env req = Raise e →
  run.1 = Raise e ∧
  api_calls (world run.2) = api_calls (world st) ++ [req] ∧
  server_calls (world run.2) = server_calls (world st) ∧
  collections (world run.2) = collections (world st) ∧
  mongo run.2 = mongo st.
Proof.
  intros req run Hfail. subst run. unfold index_document. run_monad.
  by rewrite (generate_raise env _ _ e).
Qed.

(** X5. [index_document] never looks for an existing record: indexing
    the same content twice (into a collection the driver accepts by name)
    stores two records that differ in their [_id] only, and returns their
    two ids. *)
Theorem index_document_twice (ss : SemanticSearch) (content : value)
    (metadata : option record) (collection_name : option string)
    (item : embedding_item) (rest : list embedding_item) (st : State) :
  let collection := str_or collection_name (_default_collection ss) in
  let once := index_document env ss content metadata collection_name in
  _text_field ss ≠ "_id" →
  _vector_field ss ≠ "_id" →
  can_connect env st →
  Collection_new collection = None →
  embeddings_create env (single_request (_embedding_generator ss) content)
    = Ok (item :: rest) →
  (∀ d, server_fault env (OpInsertOne collection d) = None) →
  ∃ r1 r2 st',
    bind once (λ id1, bind once (λ id2, ret (id1, id2))) st
      = (Ok (py_str env (id_of r1), py_str env (id_of r2)), st') ∧
    collection_rows collection (world st')
      = collection_rows collection (world st) ++ [r1; r2] ∧
    id_of r1 ≠ id_of r2 ∧
    delete "_id" r1 = delete "_id" r2.
Proof.
  intros collection once Htid Hvid Hcan Hname Hgen Hfault. subst once.
  set (req := single_request (_embedding_generator ss) content).
  set (doc := vector_record ss content (embedding item)
                (VDict (dict_or_empty metadata))).
  assert (doc !! "_id" = None) as Hnoid.
  { unfold doc, vector_record. by rewrite !lookup_insert_ne. }
  assert (∀ s, index_document env ss content metadata collection_name s
               = insert_document env collection doc (sent req s)) as Hstep.
  { intros s. unfold index_document. unfold bind.
    by rewrite (generate_ok env _ _ item rest). }
  destruct (insert_document_effect collection doc (sent req st))
    as (st1 & Hrun1 & Hrows1 & _ & _ & _ & Hoid1 & _ & _ & Hcan1);
    [done|done|apply Hfault|].
  destruct (insert_document_effect collection doc (sent req st1))
    as (st2 & Hrun2 & Hrows2 & _); [done|done|apply Hfault|].
  unfold bind at 1. rewrite Hstep, Hrun1.
  unfold bind at 1. rewrite Hstep, Hrun2.
  eexists _, _, _. split; [reflexivity|]. split_and!.
  - unfold collection_rows in *. simpl in *.
    rewrite Hrows2, Hrows1. by rewrite <-app_assoc.
  - simpl in *. rewrite Hoid1. unfold id_of, with_id. rewrite Hnoid.
    rewrite !lookup_insert_eq. simpl. intros [=]. lia.
  - unfold with_id. rewrite Hnoid. by rewrite !delete_insert_eq.
Qed.

End IndexingExtras.

(** ** SemanticSearch: more on searching *)

Section SearchExtras.
Context (env : Env).

(** The request [search] sends once the query is embedded. *)
Lemma search_request ss query limit collection_name index_name fq item rest st :
  can_connect env st →
  Collection_new (str_or collection_name (_default_collection ss)) = None →
  embeddings_create env (single_request (_embedding_generator ss) query)
    = Ok (item :: rest) →
  server_calls (world (search env ss query limit collection_name index_name fq st).2)
  = server_calls (world st)
    ++ [OpAggregate (str_or collection_name (_default_collection ss))
          (vector_search_pipeline (str_or index_name (_default_index ss))
             (_vector_field ss) (embedding item)
             (default search_default_limit limit)
             vector_search_default_num_candidates fq)].
Proof.
  intros Hcan Hname Hgen. unfold search. unfold bind at 1.
  rewrite (generate_ok env _ _ item rest) by done. unfold bind at 1.
  match goal with
  | |- context [vector_search env ?c ?i ?f ?q ?l ?n ?fq ?s] =>
      pose proof (vector_search_request env c i f q l n fq s
                    (can_connect_sent env _ st Hcan) Hname) as Hreq;
      destruct (vector_search env c i f q l n fq s) as [[rows|e] st2]
  end; simpl in *; by rewrite Hreq.
Qed.

(** A search that goes through. *)
Lemma search_ok ss query limit collection_name index_name fq item rest st :
  let collection := str_or collection_name (_default_collection ss) in
  let pipeline :=
    vector_search_pipeline (str_or index_name (_default_index ss))
      (_vector_field ss) (embedding item) (default search_default_limit limit)
      vector_search_default_num_candidates fq in
  can_connect env st →
  Collection_new collection = None →
  embeddings_create env (single_request (_embedding_generator ss) query)
    = Ok (item :: rest) →
  server_fault env (OpAggregate collection pipeline) = None →
  (search env ss query limit collection_name index_name fq st).1
  = Ok (format_result env ss
          <$> aggregate_rows env pipeline (collection_rows collection (world st))).
Proof.
  intros collection pipeline Hcan Hname Hgen Hfault.
  unfold search. unfold bind at 1.
  rewrite (generate_ok env _ _ item rest) by done. unfold bind at 1.
  rewrite vector_search_ok by done. done.
Qed.

(** X6. If the query cannot be embedded, [search] raises the error of
    the embedding service and does not contact the store: no request is
    sent to the server and the client's handles are untouched. *)
Theorem search_provider_failure (ss : SemanticSearch) (query : value)
    (limit : option Z) (collection_name index_name : option string)
    (fq : option record) (e : exn) (st : State) :
  let run := search env ss query limit collection_name index_name fq st in
  embeddings_create env (single_request (_embedding_generator ss) query)
    = Raise e →
  run.1 = Raise e ∧
  server_calls (world run.2) = server_calls (world st) ∧
  mongo run.2 = mongo st.
Proof.
  intros run Hfail.
  assert (run = (Raise e,
                 sent (single_request (_embedding_generator ss) query) st))
    as ->; [|done].
  subst run. unfold search. unfold bind at 1.
  by rewrite (generate_raise env _ _ e).
Qed.

(** X7. [search] (in a collection the driver accepts by name) returns one
    object per row of the server's answer, in the server's order, and
    changes nothing but the embedding field and [_id]: every other field
    (score, content, metadata, ...) is the row's, and [_id] is [str] of the
    row's [_id] (of [""] if the row has none). *)
Theorem search_keeps_other_fields (ss : SemanticSearch) (query : value)
    (limit : option Z) (collection_name index_name : option string)
    (fq : option record) (item : embedding_item) (rest : list embedding_item)
    (st : State) :
  let collection := str_or collection_name (_default_collection ss) in
  let pipeline :=
    vector_search_pipeline (str_or index_name (_default_index ss))
      (_vector_field ss) (embedding item) (default search_default_limit limit)
      vector_search_default_num_candidates fq in
  let rows := aggregate_rows env pipeline (collection_rows collection (world st)) in
  can_connect env st →
  Collection_new collection = None →
  embeddings_create env (single_request (_embedding_generator ss) query)
    = Ok (item :: rest) →
  server_fault env (OpAggregate collection pipeline) = None →
  ∃ results,
    (search env ss query limit collection_name index_name fq st).1 = Ok results ∧
    length results = length rows ∧
    ∀ i row, rows !! i = Some row →
      ∃ r, results !! i = Some r ∧
        (∀ k, k ≠ _vector_field ss → k ≠ "_id" → r !! k = row !! k) ∧
        (_vector_field ss ≠ "_id" →
         r !! "_id" = Some (VStr (py_str env (dict_get row "_id" (VStr ""))))).
Proof.
  intros collection pipeline rows Hcan Hname Hgen Hfault.
  eexists. split; [by apply (search_ok _ _ _ _ _ _ item rest)|].
  fold collection pipeline rows. split; [by rewrite length_fmap|].
  intros i row Hrow. exists (format_result env ss row).
  split; [by rewrite list_lookup_fmap, Hrow|]. unfold format_result. split.
  - intros k Hk Hid. rewrite lookup_insert_ne by done.
    by rewrite lookup_delete_ne.
  - intros Hne. rewrite lookup_insert_eq. unfold dict_get.
    by rewrite lookup_delete_ne.
Qed.

(** X8. The [$vectorSearch] stage [search] sends (for a collection the
    driver accepts by name) carries the embedding of the query, the
    resolved index and the vector field; a filter that is a non-empty dict
    is put into that stage, while [None] and the empty dict both leave the
    stage without a filter. *)
Theorem search_filter_in_stage (ss : SemanticSearch) (query : value)
    (limit : option Z) (collection_name index_name : option string)
    (fq : option record) (item : embedding_item) (rest : list embedding_item)
    (st : State) :
  can_connect env st →
  Collection_new (str_or collection_name (_default_collection ss)) = None →
  embeddings_create env (single_request (_embedding_generator ss) query)
    = Ok (item :: rest) →
  ∃ stage,
    last (server_calls
            (world (search env ss query limit collection_name index_name fq st).2))
    = Some (OpAggregate (str_or collection_name (_default_collection ss))
              [StageVectorSearch stage; StageAddFieldsScore]) ∧
    vs_index stage = str_or index_name (_default_index ss) ∧
    vs_path stage = _vector_field ss ∧
    vs_queryVector stage = embedding item ∧
    (∀ q, fq = Some q → q ≠ ∅ → vs_filter stage = Some q) ∧
    (fq = None ∨ fq = Some ∅ → vs_filter stage = None).
Proof.
  intros Hcan Hname Hgen.
  rewrite (search_request _ _ _ _ _ _ item rest) by done.
  rewrite last_snoc. unfold vector_search_pipeline.
  eexists. split; [reflexivity|]. simpl. split_and!; try done.
  - intros q -> Hq. destruct (size q =? 0)%nat eqn:Hsize; [|done].
    apply Nat.eqb_eq, map_size_empty_iff in Hsize. done.
  - intros [-> | ->]; [done|]. by rewrite map_size_empty.
Qed.

(** X9. [setup_index] asks the server for a cosine index on the vector
    field of the resolved collection (a name the driver accepts); its
    dimensions are the ones given, unless they are omitted or zero: then
    they are those of the embedding generator. *)
Theorem setup_index_dimensions (ss : SemanticSearch)
    (collection_name index_name : option string) (dimensions : option Z)
    (st : State) :
  can_connect env st →
  Collection_new (str_or collection_name (_default_collection ss)) = None →
  ∃ d,
    last (server_calls
            (world (setup_index env ss collection_name index_name dimensions st).2))
    = Some (OpCreateSearchIndex
              (str_or collection_name (_default_collection ss)) d) ∧
    idx_name d = str_or index_name (_default_index ss) ∧
    idx_path d = _vector_field ss ∧
    idx_similarity d = "cosine" ∧
    (dimensions = None ∨ dimensions = Some 0 →
     idx_numDimensions d = _dimensions (_embedding_generator ss)) ∧
    (∀ n, dimensions = Some n → n ≠ 0 → idx_numDimensions d = n).
Proof.
  intros Hcan Hname.
  unfold setup_index, create_vector_search_index, server_call. run_monad.
  rewrite get_collection_ok by done.
  eexists. split.
  - destruct (server_fault env _); simpl; by rewrite last_snoc.
  - simpl. split_and!; try done.
    + by intros [-> | ->].
    + intros n -> Hn. simpl. by rewrite bool_decide_eq_false_2.
Qed.

(** X10. The agent's tool [search_documents] searches the vector
    collection of the configuration (the documents collection if that name
    is empty; in either case a name the driver accepts) with the configured
    index, without a filter, for [top_k] results ([3] if omitted) out of
    [100] candidates; what it returns has a string [_id] and no [embedding]
    field. *)
Theorem search_documents_request (cfg : Config) (query : value)
    (top_k : option Z) (item : embedding_item) (rest : list embedding_item)
    (st : State) :
  let run := search_documents env cfg query top_k st in
  can_connect env st →
  Collection_new
    (if bool_decide (db_vector_collection cfg = "")
     then db_documents_collection cfg else db_vector_collection cfg) = None →
  embeddings_create env (single_request (tools_embedding_generator cfg) query)
    = Ok (item :: rest) →
  last (server_calls (world run.2))
  = Some (OpAggregate
            (if bool_decide (db_vector_collection cfg = "")
             then db_documents_collection cfg else db_vector_collection cfg)
            [StageVectorSearch
               (VectorSearchStage (db_vector_index_name cfg) "embedding"
                  (embedding item) 100 (default 3 top_k) None);
             StageAddFieldsScore]) ∧
  Forall (λ r : record,
            r !! "embedding" = None ∧ ∃ s, r !! "_id" = Some (VStr s))
    (returned run.1).
Proof.
  intros run Hcan Hname Hgen. subst run. unfold search_documents.
  assert (Collection_new
            (str_or (Some (db_vector_collection cfg))
               (_default_collection (tools_semantic_search cfg))) = None)
    as Hname'.
  { simpl. by case_bool_decide. }
  split.
  - rewrite (search_request _ _ _ _ _ _ item rest) by done.
    rewrite last_snoc. simpl. unfold vector_search_pipeline. simpl.
    by repeat case_bool_decide.
  - unfold search. unfold bind at 1.
    rewrite (generate_ok env _ _ item rest) by done. unfold bind at 1.
    match goal with
    | |- context [vector_search env ?c ?i ?f ?q ?l ?n ?fq ?s] =>
        destruct (vector_search env c i f q l n fq s) as [[rows|e] st2]
    end; simpl; [|constructor].
    apply Forall_fmap, Forall_forall. intros row _. simpl.
    unfold format_result. simpl. split.
    + rewrite lookup_insert_ne by done. apply lookup_delete_eq.
    + eexists. apply lookup_insert_eq.
Qed.

End SearchExtras.

(** ** MongoDBClient: more on the handles *)

Section ClientExtras.
Context (env : Env).

(** X11. A data operation on a connected client works with the cached
    handles: whatever it returns, it creates no new [MongoClient] and
    leaves both handles as they were.  And on any client, whatever the
    outside does, a database handle that is cached afterwards is the one
    of the cached client: no operation leaves a database handle without
    its client.  (The converse fails: when the driver refuses the database
    name, the operation leaves the client cached without a database
    handle.) *)
Theorem data_operation_keeps_handles (op : data_op) (st : State) :
  (connected (mongo st) →
   mongo (run_data_op env op st).2 = mongo st ∧
   next_handle (world (run_data_op env op st).2) = next_handle (world st) ∧
   open_handles (world (run_data_op env op st).2) = open_handles (world st)) ∧
  (db_of_client (mongo st) → db_of_client (mongo (run_data_op env op st).2)).
Proof.
  split.
  - intros [_ [d Hd]].
    destruct op; simpl;
      unfold get_collection, list_collections, create_collection,
        collection_exists, list_collections, insert_document, insert_documents,
        find_documents, delete_documents, create_vector_search_index,
        vector_search, get_collection, insert_one, insert_many, server_call, db;
      run_monad; rewrite Hd; simpl; rewrite ?Hd; simpl;
      repeat (case_match; simplify_eq/=); done.
  - intros Hinv.
    destruct op; simpl;
      unfold get_collection, list_collections, create_collection,
        collection_exists, list_collections, insert_document, insert_documents,
        find_documents, delete_documents, create_vector_search_index,
        vector_search, get_collection, insert_one, insert_many, server_call, db,
        connect;
      run_monad;
      repeat (case_match; simplify_eq/=); try done;
      intros d' Hd'; simpl in *; simplify_eq/=; try done; congruence.
Qed.

End ClientExtras.

Lemma data_operation_keeps_handles_witness :
  mongo (run_data_op Demo.env (DeleteDocuments "vectors" ∅) DemoStore.state3).2
    = mongo DemoStore.state3 ∧
  db_of_client
    (mongo (run_data_op Demo.env (FindDocuments "vectors" ∅ None)
              (MkState (MongoDBClient_init "mongodb://localhost" "")
                 Demo.world0)).2).
Proof.
  split.
  - apply (data_operation_keeps_handles Demo.env (DeleteDocuments "vectors" ∅)
             DemoStore.state3).
    split; by eexists.
  - apply (data_operation_keeps_handles Demo.env
             (FindDocuments "vectors" ∅ None)
             (MkState (MongoDBClient_init "mongodb://localhost" "")
                Demo.world0)).
    intros d Hd. discriminate Hd.
Defined.

(** ** The bulk indexing job: what it stores *)

Section BulkExtras.
Context (env : Env).

(** What [insert_document] does to the collections, whatever happens. *)
Lemma insert_document_rows c doc st :
  (∀ c', c' ≠ c →
     collection_rows c' (world (insert_document env c doc st).2)
     = collection_rows c' (world st)) ∧
  match (insert_document env c doc st).1 with
  | Ok id =>
      ∃ n, id = py_str env (id_of (with_id n doc)) ∧
        collection_rows c (world (insert_document env c doc st).2)
        = collection_rows c (world st) ++ [with_id n doc]
  | Raise _ =>
      collection_rows c (world (insert_document env c doc st).2)
      = collection_rows c (world st)
  end.
Proof.
  unfold insert_document, insert_one, get_collection, db, connect, server_call.
  run_monad. unfold collection_rows. split.
  - intros c' Hne.
    repeat (case_match; simplify_eq/=); by rewrite ?lookup_insert_ne.
  - repeat (case_match; simplify_eq/=); try done.
    all: eexists; split; [reflexivity|]; by rewrite lookup_insert_eq.
Qed.

Lemma bind_inv {A B} (m : M A) (k : A → M B) st r st' :
  bind m k st = (r, st') →
  (∃ a s, m st = (Ok a, s) ∧ k a s = (r, st')) ∨
  (∃ e, m st = (Raise e, st') ∧ r = Raise e).
Proof.
  unfold bind. destruct (m st) as [[a|e] s]; intros H.
  - left. by exists a, s.
  - right. exists e. by simplify_eq.
Qed.

Lemma print_run ev st r st' :
  print ev st = (r, st') →
  r = Ok tt ∧ mongo st' = mongo st ∧
  collections (world st') = collections (world st) ∧
  server_calls (world st') = server_calls (world st) ∧
  api_calls (world st') = api_calls (world st) ∧
  next_oid (world st') = next_oid (world st) ∧
  clock (world st') = clock (world st) ∧
  stdout (world st') = stdout (world st) ++ [ev].
Proof. unfold print, modify_world. by intros [= <- <-]. Qed.

Lemma utcnow_run st r st' :
  utcnow st = (r, st') →
  r = Ok (VDatetime (clock (world st))) ∧ mongo st' = mongo st ∧
  collections (world st') = collections (world st) ∧
  server_calls (world st') = server_calls (world st) ∧
  api_calls (world st') = api_calls (world st) ∧
  next_oid (world st') = next_oid (world st) ∧
  stdout (world st') = stdout (world st).
Proof. unfold utcnow. by intros [= <- <-]. Qed.

Lemma generate_run g text st r st' :
  generate env g text st = (r, st') →
  st' = sent (single_request g text) st ∧
  match embeddings_create env (single_request g text) with
  | Ok (item :: _) => r = Ok (embedding item)
  | Ok [] => r = Raise (Exn IndexError "list index out of range")
  | Raise e => r = Raise e
  end.
Proof.
  unfold generate, embeddings_create_call, single_request. run_monad.
  destruct (embeddings_create env _) as [[|item data]|e]; by intros [= <- <-].
Qed.

Lemma collection_rows_eq c w w' :
  collections w' = collections w → collection_rows c w' = collection_rows c w.
Proof. unfold collection_rows. by intros ->. Qed.

(** The vector collection grows by one record exactly when a file is
    counted. *)
Lemma process_file_vector_rows ss dc vc f st r st' :
  let vectors := str_or (Some vc) (_default_collection ss) in
  dc ≠ vectors →
  process_file env ss dc vc f st = (r, st') →
  length (collection_rows vectors (world st'))
  = (length (collection_rows vectors (world st)) + counted r)%nat.
Proof.
  intros vectors Hne. unfold process_file. intros H.
  apply bind_inv in H as [(raw & s0 & Hread & H)|(e & Hread & ->)];
    unfold open_read in Hread; injection Hread as Hread <-; [|simpl; lia].
  case_bool_decide as Hempty.
  { apply bind_inv in H as [(? & s1 & Hp & H)|(e & Hp & ->)];
      apply print_run in Hp as (? & _ & Hc & _); [|done].
    unfold ret in H. simplify_eq. rewrite (collection_rows_eq _ _ _ Hc).
    simpl. lia. }
  apply bind_inv in H as [(? & s1 & Hp & H)|(e & Hp & ->)];
    apply print_run in Hp as (? & _ & Hc1 & _); [|done].
  apply bind_inv in H as [(now & s2 & Hn & H)|(e & Hn & ->)];
    apply utcnow_run in Hn as (? & _ & Hc2 & _); [|done].
  assert (collection_rows vectors (world s2)
          = collection_rows vectors (world st)) as Hrows2.
  { rewrite (collection_rows_eq _ _ _ Hc2). by apply collection_rows_eq. }
  apply bind_inv in H as [(doc_id & s3 & Hd & H)|(e & Hd & ->)].
  2: { destruct (insert_document_rows dc (document_metadata f (strip raw) now) s2)
         as [Hother _].
       rewrite Hd in Hother. simpl in Hother.
       rewrite (Hother vectors) by done. rewrite Hrows2. simpl. lia. }
  assert (collection_rows vectors (world s3)
          = collection_rows vectors (world st)) as Hrows3.
  { destruct (insert_document_rows dc (document_metadata f (strip raw) now) s2)
      as [Hother _].
    rewrite Hd in Hother. simpl in Hother. by rewrite (Hother vectors). }
  apply bind_inv in H as [(? & s4 & Hp & H)|(e & Hp & ->)];
    apply print_run in Hp as (? & _ & Hc4 & _); [|done].
  apply bind_inv in H as [(now' & s5 & Hn & H)|(e & Hn & ->)];
    apply utcnow_run in Hn as (? & _ & Hc5 & _); [|done].
  assert (collection_rows vectors (world s5)
          = collection_rows vectors (world st)) as Hrows5.
  { rewrite (collection_rows_eq _ _ _ Hc5), (collection_rows_eq _ _ _ Hc4).
    done. }
  unfold index_document in H. fold vectors in H.
  assert (∀ rv sv,
            bind (generate env (_embedding_generator ss) (VStr (strip raw)))
              (λ e, insert_document env vectors
                      (vector_record ss (VStr (strip raw)) e
                         (VDict (dict_or_empty
                            (Some (vector_metadata f (strip raw) doc_id now'))))))
              s5 = (rv, sv) →
            length (collection_rows vectors (world sv))
            = (length (collection_rows vectors (world st))
               + match rv with Ok _ => 1 | Raise _ => 0 end)%nat) as Hvec.
  { intros rv sv Hv.
    apply bind_inv in Hv as [(e & s6 & Hg & Hv)|(e & Hg & ->)];
      apply generate_run in Hg as [-> _].
    - match type of Hv with
      | insert_document env ?c ?d ?s = _ =>
          destruct (insert_document_rows c d s) as [_ Hsame]
      end.
      rewrite Hv in Hsame. simpl in Hsame. destruct rv.
      + destruct Hsame as (n & _ & ->). rewrite length_app. simpl.
        unfold collection_rows in *. simpl. rewrite Hrows5. lia.
      + rewrite Hsame. unfold collection_rows in *. simpl. rewrite Hrows5. lia.
    - unfold collection_rows in *. simpl. rewrite Hrows5. lia. }
  apply bind_inv in H as [(vector_id & s6 & Hv & H)|(e & Hv & ->)].
  2: { apply Hvec in Hv. simpl in *. lia. }
  apply Hvec in Hv.
  apply bind_inv in H as [(? & s7 & Hp & H)|(e & Hp & ->)];
    apply print_run in Hp as (? & _ & Hc7 & _); [|done].
  unfold ret in H. simplify_eq. rewrite (collection_rows_eq _ _ _ Hc7).
  simpl. lia.
Qed.

Lemma bind_Ok_run {A B} (m : M A) (k : A → M B) st a s :
  m st = (Ok a, s) → bind m k st = k a s.
Proof. unfold bind. by intros ->. Qed.

Lemma bind_Raise_run {A B} (m : M A) (k : A → M B) st e s :
  m st = (Raise e, s) → bind m k st = (Raise e, s).
Proof. unfold bind. by intros ->. Qed.

(** X13. The two records of an indexed file refer to each other.  When
    the processing of a file reaches [indexed_count += 1], the documents
    collection holds a record with the stripped content of the file, its
    name and [size = len(content)], and the vector collection holds a record
    whose metadata names the file and whose [document_id] is the string of
    that document record's [_id]. *)
Theorem process_file_links_records (ss : SemanticSearch) (dc vc : string)
    (f : Path) (st st' : State) :
  process_file env ss dc vc f st = (Ok true, st') →
  ∃ raw d v metadata,
    read_text env f = Ok raw ∧
    d ∈ collection_rows dc (world st') ∧
    v ∈ collection_rows (str_or (Some vc) (_default_collection ss)) (world st') ∧
    d !! "content" = Some (VStr (strip raw)) ∧
    d !! "size" = Some (VInt (Z.of_nat (len (strip raw)))) ∧
    d !! "name" = Some (VStr (path_name f)) ∧
    v !! "metadata" = Some (VDict metadata) ∧
    metadata !! "document_id" = Some (VStr (py_str env (id_of d))) ∧
    metadata !! "document_name" = Some (VStr (path_name f)) ∧
    metadata !! "content_length" = Some (VInt (Z.of_nat (len (strip raw)))).
Proof.
  set (vectors := str_or (Some vc) (_default_collection ss)).
  unfold process_file. intros H.
  apply bind_Ok_inv in H as (raw & s0 & Hread & H).
  unfold open_read in Hread. injection Hread as Hread <-.
  case_bool_decide as Hempty.
  { apply bind_Ok_inv in H as (? & ? & _ & H). by inversion H. }
  apply bind_Ok_inv in H as ([] & s1 & _ & H).
  apply bind_Ok_inv in H as (now & s2 & _ & H).
  apply bind_Ok_inv in H as (doc_id & s3 & Hd & H).
  destruct (insert_document_rows dc (document_metadata f (strip raw) now) s2)
    as [_ Hdoc].
  rewrite Hd in Hdoc. simpl in Hdoc. destruct Hdoc as (n & -> & Hdoc).
  apply bind_Ok_inv in H as ([] & s4 & Hp4 & H).
  apply print_run in Hp4 as (_ & _ & Hc4 & _).
  apply bind_Ok_inv in H as (now' & s5 & Hn5 & H).
  apply utcnow_run in Hn5 as (_ & _ & Hc5 & _).
  apply bind_Ok_inv in H as (vector_id & s6 & Hv & H).
  unfold index_document in Hv. fold vectors in Hv.
  apply bind_Ok_inv in Hv as (e & s7 & Hg & Hv).
  apply generate_run in Hg as [-> _].
  match type of Hv with
  | insert_document env ?c ?rec ?s = _ =>
      destruct (insert_document_rows c rec s) as [Hother Hvec]
  end.
  rewrite Hv in Hother, Hvec. simpl in Hother, Hvec.
  destruct Hvec as (n' & _ & Hvec).
  apply bind_Ok_inv in H as ([] & s8 & Hp8 & H).
  apply print_run in Hp8 as (_ & _ & Hc8 & _).
  unfold ret in H. injection H as <-.
  set (d := with_id n (document_metadata f (strip raw) now)) in *.
  assert (d ∈ collection_rows dc (world s5)) as Hd5.
  { rewrite (collection_rows_eq _ _ _ Hc5), (collection_rows_eq _ _ _ Hc4), Hdoc.
    apply elem_of_app. right. by left. }
  eexists raw, d, _, _. split; [done|]. split_and!.
  - rewrite (collection_rows_eq _ _ _ Hc8).
    destruct (decide (dc = vectors)) as [Heq|Hne].
    + rewrite Heq, Hvec. apply elem_of_app. left.
      unfold collection_rows in *. simpl. by rewrite <-Heq.
    + rewrite Hother by done. unfold collection_rows in *. by simpl.
  - rewrite (collection_rows_eq _ _ _ Hc8), Hvec.
    apply elem_of_app. right. by left.
  - by apply with_id_lookup.
  - by apply with_id_lookup.
  - by apply with_id_lookup.
  - apply with_id_lookup. unfold vector_record. apply lookup_insert_eq.
  - done.
  - done.
  - done.
Qed.

(** X14. The document record is written before the text is embedded,
    and nothing takes it back: if the embedding service fails on a file
    that was read and is not blank (something is left of it after
    [strip()]), the processing of the file raises that error, and it
    leaves the document record in the documents collection, with no vector
    record to go with it. *)
Theorem process_file_orphan (ss : SemanticSearch) (dc vc : string) (f : Path)
    (raw : string) (e : exn) (st : State) :
  let content := strip raw in
  let doc := document_metadata f content (VDatetime (clock (world st))) in
  can_connect env st →
  Collection_new dc = None →
  read_text env f = Ok raw →
  content ≠ "" →
  server_fault env (OpInsertOne dc doc) = None →
  embeddings_create env
    (single_request (_embedding_generator ss) (VStr content)) = Raise e →
  ∃ st',
    process_file env ss dc vc f st = (Raise e, st') ∧
    collection_rows dc (world st')
      = collection_rows dc (world st) ++ [with_id (next_oid (world st)) doc] ∧
    (∀ c, c ≠ dc →
       collection_rows c (world st') = collection_rows c (world st)) ∧
    server_calls (world st') = server_calls (world st) ++ [OpInsertOne dc doc].
Proof.
  intros content doc Hcan Hname Hread Hnonempty Hfault Hfail.
  unfold process_file.
  rewrite (bind_Ok_run _ _ st raw st) by (unfold open_read; by rewrite Hread).
  fold content. rewrite bool_decide_eq_false_2 by done.
  erewrite bind_Ok_run by reflexivity.
  erewrite bind_Ok_run by reflexivity.
  match goal with
  | |- context [bind (insert_document env dc ?d) _ ?s] =>
      destruct (insert_document_effect env dc d s)
        as (s3 & Hins & Hrows & Hother & _ & Hcalls & _);
        [exact Hcan|exact Hname|exact Hfault|]
  end.
  erewrite bind_Ok_run by exact Hins.
  erewrite bind_Ok_run by reflexivity.
  erewrite bind_Ok_run by reflexivity.
  erewrite bind_Raise_run.
  2: { unfold index_document. apply bind_Raise_run.
       apply generate_raise. exact Hfail. }
  eexists. split; [reflexivity|]. unfold collection_rows in *. simpl in *.
  split_and!.
  - exact Hrows.
  - exact Hother.
  - exact Hcalls.
Qed.

Lemma try_process_file_vector_rows ss dc vc f st b st' :
  let vectors := str_or (Some vc) (_default_collection ss) in
  dc ≠ vectors →
  try_except (process_file env ss dc vc f) (report_error f) st = (Ok b, st') →
  length (collection_rows vectors (world st'))
  = (length (collection_rows vectors (world st)) + if b then 1 else 0)%nat.
Proof.
  intros vectors Hne. unfold try_except.
  destruct (process_file env ss dc vc f st) as [[b'|e] s] eqn:Hrun;
    apply (process_file_vector_rows ss dc vc f st _ _ Hne) in Hrun;
    fold vectors in Hrun.
  - intros [= -> ->]. rewrite Hrun. by destruct b.
  - destruct (is_Exception e); [|done].
    unfold report_error, bind, print, modify_world, ret. simpl.
    intros [= <- <-]. unfold collection_rows in *. simpl in *. lia.
Qed.

Lemma index_loop_count ss dc vc files n st count st' :
  let vectors := str_or (Some vc) (_default_collection ss) in
  dc ≠ vectors →
  index_loop env ss dc vc files n st = (Ok count, st') →
  (n ≤ count ≤ n + length files)%nat ∧
  length (collection_rows vectors (world st'))
  = (length (collection_rows vectors (world st)) + (count - n))%nat.
Proof.
  intros vectors Hne. revert n st.
  induction files as [|f files IH]; intros n st; simpl.
  - unfold ret. intros [= <- <-]. split; lia.
  - intros H. apply bind_Ok_inv in H as (b & s1 & Hturn & Hrest).
    apply (try_process_file_vector_rows ss dc vc f st _ _ Hne) in Hturn.
    apply IH in Hrest as [Hcount Hrows]. fold vectors in Hturn.
    rewrite Hrows, Hturn. destruct b; split; lia.
Qed.

(** X12. The summary line of the job is truthful.  When
    [index_documents_from_folder] has gone through a non-empty listing, the
    last line it printed is "indexed [count] of [total]", where [total] is
    the number of files listed and [count], which is at most [total], is
    exactly the number of vector records the run added (the documents
    collection being another collection than the one the vectors go to). *)
Theorem bulk_indexing_count (folder_path : string) (ss : SemanticSearch)
    (documents_collection vectors_collection : string)
    (text_files : list Path) (st st' : State) :
  let vectors := str_or (Some vectors_collection) (_default_collection ss) in
  documents_collection ≠ vectors →
  rglob_txt env folder_path = Some text_files →
  text_files ≠ [] →
  index_documents_from_folder env folder_path ss documents_collection
    vectors_collection st = (Ok tt, st') →
  ∃ count,
    last (stdout (world st')) = Some (EvComplete count (length text_files)) ∧
    (count ≤ length text_files)%nat ∧
    length (collection_rows vectors (world st'))
    = (length (collection_rows vectors (world st)) + count)%nat.
Proof.
  intros vectors Hne Hfiles Hnonempty.
  unfold index_documents_from_folder. rewrite Hfiles.
  destruct text_files as [|f0 files] eqn:Hlist; [done|]. rewrite <-Hlist.
  intros H.
  apply bind_Ok_inv in H as ([] & st0 & Hfound & H).
  apply print_run in Hfound as (_ & _ & Hc0 & _).
  apply bind_Ok_inv in H as (count & st1 & Hloop & H).
  apply print_run in H as (_ & _ & Hc1 & _ & _ & _ & _ & Hout).
  apply (index_loop_count ss _ _ _ _ _ _ _ Hne) in Hloop as [Hcount Hrows].
  exists count. rewrite Hout, last_snoc. split; [done|]. split; [lia|].
  fold vectors in Hrows.
  rewrite (collection_rows_eq _ _ _ Hc1), Hrows, (collection_rows_eq _ _ _ Hc0).
  lia.
Qed.

End BulkExtras.

Lemma Ok_run {A S} (x : outcome A * S) (a : A) :
  x.1 = Ok a → x = (Ok a, x.2).
Proof. destruct x as [r s]. simpl. by intros ->. Qed.

Lemma bulk_indexing_count_witness :
  ∃ count,
    last (stdout (world (index_documents_from_folder Demo.env "/data"
                           Demo.engine "documents" "vectors" Demo.state0).2))
    = Some (EvComplete count 3) ∧
    (count ≤ 3)%nat ∧
    length (collection_rows "vectors"
              (world (index_documents_from_folder Demo.env "/data" Demo.engine
                        "documents" "vectors" Demo.state0).2))
    = (0 + count)%nat.
Proof.
  apply (bulk_indexing_count Demo.env "/data" Demo.engine "documents" "vectors"
           [MkPath ["a.txt"] "/data/a.txt";
            MkPath ["sub"; "b.txt"] "/data/sub/b.txt";
            MkPath ["c.txt"] "/data/c.txt"]
           Demo.state0).
  - simpl. discriminate.
  - reflexivity.
  - discriminate.
  - apply Ok_run. vm_compute. reflexivity.
Defined.

(** ** The further properties at concrete inputs *)

Lemma index_documents_truncates_witness :
  ∃ ids inserted st',
    index_documents DemoExtras.env_short Demo.engine DemoStore.docs None
      Demo.state0 = (Ok ids, st') ∧
    collection_rows "vectors" (world st') = [] ++ inserted ∧
    length ids = 1%nat ∧ length inserted = 1%nat.
Proof.
  apply (index_documents_truncates DemoExtras.env_short Demo.engine
           {[ "content" := VStr "A";
              "metadata" := VDict {[ "source" := VStr "dummy" ]} ]}
           [ {[ "metadata" := VDict {[ "source" := VStr "dummy" ]} ]};
             {[ "content" := VStr "C" ]} ]
           None [EmbeddingItem 0 (Demo.vec 0 (VStr "A"))] Demo.state0).
  - split_and!; reflexivity.
  - reflexivity.
  - vm_compute. reflexivity.
  - reflexivity.
Defined.

Lemma index_documents_empty_witness :
  api_calls (world (index_documents Demo.env Demo.engine [] None Demo.state0).2)
    = [] ∧
  server_calls (world (index_documents Demo.env Demo.engine [] None Demo.state0).2)
    = [] ∧
  (index_documents Demo.env Demo.engine [] None Demo.state0).1
    = Raise (Exn TypeError "documents must be a non-empty list").
Proof.
  destruct (index_documents_empty Demo.env Demo.engine None Demo.state0)
    as (Hapi & Hcalls & _ & _ & Hraise).
  split; [exact Hapi|]. split; [exact Hcalls|].
  apply Hraise; [split_and!; reflexivity|reflexivity].
Defined.

Lemma index_document_provider_failure_witness :
  (index_document DemoExtras.env_down Demo.engine (VStr "A") None None
     DemoStore.state3).1 = Raise (Exn APIError "503 Service Unavailable") ∧
  collections
    (world (index_document DemoExtras.env_down Demo.engine (VStr "A") None None
              DemoStore.state3).2) = collections (world DemoStore.state3).
Proof.
  destruct (index_document_provider_failure DemoExtras.env_down Demo.engine
              (VStr "A") None None (Exn APIError "503 Service Unavailable")
              DemoStore.state3 eq_refl) as (Hr & _ & _ & Hc & _).
  split; [exact Hr|exact Hc].
Defined.

Lemma index_document_twice_witness :
  ∃ r1 r2 st',
    bind (index_document Demo.env Demo.engine (VStr "A") None None)
      (λ id1, bind (index_document Demo.env Demo.engine (VStr "A") None None)
                (λ id2, ret (id1, id2))) Demo.state0
      = (Ok (Demo.str (id_of r1), Demo.str (id_of r2)), st') ∧
    collection_rows "vectors" (world st') = [] ++ [r1; r2] ∧
    id_of r1 ≠ id_of r2 ∧
    delete "_id" r1 = delete "_id" r2.
Proof.
  apply (index_document_twice Demo.env Demo.engine (VStr "A") None None
           (EmbeddingItem 0 (Demo.vec 0 (VStr "A"))) [] Demo.state0).
  - simpl. discriminate.
  - simpl. discriminate.
  - split_and!; reflexivity.
  - reflexivity.
  - reflexivity.
  - reflexivity.
Defined.

Lemma search_provider_failure_witness :
  (search DemoExtras.env_down Demo.engine (VStr "A") None None None None
     DemoStore.state3).1 = Raise (Exn APIError "503 Service Unavailable") ∧
  server_calls
    (world (search DemoExtras.env_down Demo.engine (VStr "A") None None None
              None DemoStore.state3).2) = server_calls (world DemoStore.state3).
Proof.
  destruct (search_provider_failure DemoExtras.env_down Demo.engine (VStr "A")
              None None None None (Exn APIError "503 Service Unavailable")
              DemoStore.state3 eq_refl) as (Hr & Hc & _).
  split; [exact Hr|exact Hc].
Defined.

Lemma search_keeps_other_fields_witness :
  ∃ results,
    (search Demo.env Demo.engine (VStr "A") (Some 2) None None None
       DemoStore.state3).1 = Ok results ∧
    length results = 2%nat ∧
    ∀ i row,
      Demo.rows
        (vector_search_pipeline "vector_index" "embedding"
           (Demo.vec 0 (VStr "A")) 2 100 None)
        (collection_rows "vectors" (world DemoStore.state3)) !! i = Some row →
      ∃ r, results !! i = Some r ∧
        r !! "score" = row !! "score" ∧
        r !! "content" = row !! "content" ∧
        r !! "metadata" = row !! "metadata".
Proof.
  destruct (search_keeps_other_fields Demo.env Demo.engine (VStr "A") (Some 2)
              None None None (EmbeddingItem 0 (Demo.vec 0 (VStr "A"))) []
              DemoStore.state3)
    as (results & Hrun & Hlen & Hrows).
  - split_and!; reflexivity.
  - reflexivity.
  - reflexivity.
  - reflexivity.
  - exists results. split; [exact Hrun|]. split.
    { rewrite Hlen. vm_compute. reflexivity. }
    intros i row Hrow.
    destruct (Hrows i row Hrow) as (r & Hr & Hkeep & _).
    exists r. split; [exact Hr|].
    split_and!; apply Hkeep; discriminate.
Defined.

Lemma search_filter_in_stage_witness :
  ∃ stage,
    last (server_calls
            (world (search Demo.env Demo.engine (VStr "A") None None None
                      (Some {[ "metadata.source" := VStr "dummy" ]})
                      DemoStore.state3).2))
    = Some (OpAggregate "vectors" [StageVectorSearch stage; StageAddFieldsScore]) ∧
    vs_index stage = "vector_index" ∧
    vs_path stage = "embedding" ∧
    vs_filter stage = Some {[ "metadata.source" := VStr "dummy" ]}.
Proof.
  destruct (search_filter_in_stage Demo.env Demo.engine (VStr "A") None None
              None (Some {[ "metadata.source" := VStr "dummy" ]})
              (EmbeddingItem 0 (Demo.vec 0 (VStr "A"))) [] DemoStore.state3)
    as (stage & Hlast & Hidx & Hpath & _ & Hfilter & _).
  - split_and!; reflexivity.
  - reflexivity.
  - reflexivity.
  - exists stage. split; [exact Hlast|]. split; [exact Hidx|].
    split; [exact Hpath|]. apply Hfilter; [reflexivity|].
    intros Hempty. apply (f_equal (λ m : record, m !! "metadata.source")) in Hempty.
    discriminate Hempty.
Defined.

Lemma setup_index_dimensions_witness :
  ∃ d,
    last (server_calls
            (world (setup_index Demo.env Demo.engine None None (Some 0)
                      Demo.state0).2))
    = Some (OpCreateSearchIndex "vectors" d) ∧
    idx_similarity d = "cosine" ∧
    idx_numDimensions d = 1536.
Proof.
  destruct (setup_index_dimensions Demo.env Demo.engine None None (Some 0)
              Demo.state0)
    as (d & Hlast & _ & _ & Hsim & Hdefault & _).
  - split_and!; reflexivity.
  - reflexivity.
  - exists d. split; [exact Hlast|]. split; [exact Hsim|].
    apply Hdefault. by right.
Defined.

Lemma search_documents_request_witness :
  last (server_calls
          (world (search_documents Demo.env DemoExtras.cfg (VStr "A") None
                    DemoStore.state3).2))
  = Some (OpAggregate "vectors"
            [StageVectorSearch
               (VectorSearchStage "vector_index" "embedding"
                  (Demo.vec 0 (VStr "A")) 100 3 None);
             StageAddFieldsScore]) ∧
  Forall (λ r : record,
            r !! "embedding" = None ∧ ∃ s, r !! "_id" = Some (VStr s))
    (returned (search_documents Demo.env DemoExtras.cfg (VStr "A") None
                 DemoStore.state3).1).
Proof.
  apply (search_documents_request Demo.env DemoExtras.cfg (VStr "A") None
           (EmbeddingItem 0 (Demo.vec 0 (VStr "A"))) [] DemoStore.state3).
  - split_and!; reflexivity.
  - reflexivity.
  - reflexivity.
Defined.

Lemma process_file_links_records_witness :
  ∃ d v metadata,
    d ∈ collection_rows "documents"
          (world (process_file Demo.env Demo.engine "documents" "vectors"
                    (MkPath ["cafe.txt"] "/unicode/cafe.txt") Demo.state0).2) ∧
    v ∈ collection_rows "vectors"
          (world (process_file Demo.env Demo.engine "documents" "vectors"
                    (MkPath ["cafe.txt"] "/unicode/cafe.txt") Demo.state0).2) ∧
    d !! "content" = Some (VStr "café") ∧
    d !! "size" = Some (VInt 4) ∧
    v !! "metadata" = Some (VDict metadata) ∧
    metadata !! "document_id" = Some (VStr (Demo.str (id_of d))) ∧
    metadata !! "content_length" = Some (VInt 4).
Proof.
  destruct (process_file_links_records Demo.env Demo.engine "documents"
              "vectors" (MkPath ["cafe.txt"] "/unicode/cafe.txt") Demo.state0
              (process_file Demo.env Demo.engine "documents" "vectors"
                 (MkPath ["cafe.txt"] "/unicode/cafe.txt") Demo.state0).2)
    as (raw & d & v & metadata & Hread & Hd & Hv & Hc & Hsize & _ & Hm & Hid
        & _ & Hlen).
  - apply Ok_run. vm_compute. reflexivity.
  - injection Hread as <-.
    exists d, v, metadata. split_and!; assumption.
Defined.

Lemma process_file_orphan_witness :
  ∃ st',
    process_file DemoExtras.env_down Demo.engine "documents" "vectors"
      (MkPath ["cafe.txt"] "/unicode/cafe.txt") Demo.state0
      = (Raise (Exn APIError "503 Service Unavailable"), st') ∧
    length (collection_rows "documents" (world st')) = 1%nat ∧
    collection_rows "vectors" (world st') = [].
Proof.
  destruct (process_file_orphan DemoExtras.env_down Demo.engine "documents"
              "vectors" (MkPath ["cafe.txt"] "/unicode/cafe.txt")
              (Demo.nbsp +:+ " café " +:+ Demo.ideographic_space)
              (Exn APIError "503 Service Unavailable") Demo.state0)
    as (st' & Hrun & Hdocs & Hother & _).
  - split_and!; reflexivity.
  - reflexivity.
  - reflexivity.
  - discriminate.
  - reflexivity.
  - reflexivity.
  - exists st'. split; [exact Hrun|]. split.
    + rewrite Hdocs. reflexivity.
    + rewrite Hother by discriminate. reflexivity.
Defined.

(** ** The scripts *)

Lemma filter_ne_all (h : nat) (l : list nat) :
  h ∉ l → filter (λ h', h' ≠ h) l = l.
Proof.
  induction l as [|x l IH]; [done|]. intros Hnotin.
  apply not_elem_of_cons in Hnotin as [Hne Hnotin].
  rewrite filter_cons_True by done. by rewrite IH.
Qed.

Section HandleFacts.
Context (env : Env) (base : list nat).

Lemma quiet_keeps {A} (m : M A) : quiet m → keeps base m.
Proof.
  intros Hq st (Hwf & Hopen & Hnodup & Hfresh).
  destruct (Hq st) as (Hm & Ho & Hn).
  unfold handles_inv. by rewrite Hm, Ho, Hn.
Qed.

Lemma keeps_ret {A} (a : A) : keeps base (ret a).
Proof. by intros st. Qed.

Lemma keeps_raise {A} e : keeps base (@raise A e).
Proof. by intros st. Qed.

Lemma keeps_gets {A} (f : State → A) : keeps base (gets f).
Proof. by intros st. Qed.

Lemma keeps_bind {A B} (m : M A) (k : A → M B) :
  keeps base m → (∀ a, keeps base (k a)) → keeps base (bind m k).
Proof.
  intros Hm Hk st Hinv. unfold bind. specialize (Hm st Hinv).
  destruct (m st) as [[a|e] st1]; simpl in *; [by apply Hk|done].
Qed.

Lemma keeps_try_except {A} (body : M A) (handler : exn → M A) :
  keeps base body → (∀ e, keeps base (handler e)) →
  keeps base (try_except body handler).
Proof.
  intros Hb Hh st Hinv. unfold try_except. specialize (Hb st Hinv).
  destruct (body st) as [[a|e] st1]; simpl in *; [done|].
  destruct (is_Exception e); [by apply Hh|done].
Qed.

Lemma keeps_print ev : keeps base (print ev).
Proof. by apply quiet_keeps. Qed.

Lemma keeps_utcnow : keeps base utcnow.
Proof. by apply quiet_keeps. Qed.

Lemma keeps_open_read p : keeps base (open_read env p).
Proof. by apply quiet_keeps. Qed.

Lemma keeps_server_call op : keeps base (server_call env op).
Proof.
  apply quiet_keeps. intros st. unfold server_call.
  by destruct (server_fault env op).
Qed.

Lemma keeps_modify_world (f : World → World) :
  (∀ w, open_handles (f w) = open_handles w ∧ next_handle (f w) = next_handle w) →
  keeps base (modify_world f).
Proof.
  intros Hf. apply quiet_keeps. intros st. simpl.
  by destruct (Hf (world st)).
Qed.

Lemma keeps_connect : keeps base (connect env).
Proof.
  intros st (Hwf & Hopen & Hnodup & Hfresh). unfold connect.
  destruct (_client (mongo st)) as [h|] eqn:Hc; simpl.
  { unfold handles_inv. by rewrite Hc. }
  destruct (MongoClient_new env _); simpl.
  { unfold handles_inv. by rewrite Hc. }
  simpl in Hopen.
  destruct (Database_new _); split_and!; simpl.
  all: try done.
  all: try by rewrite Hopen.
  all: try (constructor; [|done]; intros Hin;
            rewrite Forall_forall in Hfresh; apply Hfresh in Hin; lia).
  all: constructor; [lia|]; eapply Forall_impl; [exact Hfresh|]; simpl; lia.
Qed.

Lemma keeps_disconnect : keeps base disconnect.
Proof.
  intros st (Hwf & Hopen & Hnodup & Hfresh). unfold disconnect.
  destruct (_client (mongo st)) as [h|] eqn:Hc; simpl.
  2: { unfold handles_inv. by rewrite Hc. }
  simpl in Hopen. rewrite Hopen in Hnodup, Hfresh.
  apply NoDup_cons in Hnodup as [Hnotin Hnodup].
  apply Forall_cons in Hfresh as [_ Hfresh].
  assert (filter (λ h', h' ≠ h) (open_handles (world st)) = base) as Hfilter.
  { rewrite Hopen. rewrite filter_cons_False by (intros ?; done).
    by apply filter_ne_all. }
  split_and!; simpl; by rewrite ?Hfilter.
Qed.

Lemma keeps_db : keeps base (db env).
Proof.
  unfold db. apply keeps_bind; [apply keeps_gets|]. intros d.
  apply keeps_bind; [|intros; apply keeps_gets].
  destruct d; [apply keeps_ret|apply keeps_connect].
Qed.

Lemma keeps_get_collection c : keeps base (get_collection env c).
Proof.
  unfold get_collection. apply keeps_bind; [apply keeps_db|].
  intros [d|]; [|apply keeps_raise].
  destruct (Collection_new c); [apply keeps_raise|apply keeps_ret].
Qed.

Lemma keeps_list_collections : keeps base (list_collections env).
Proof.
  unfold list_collections. apply keeps_bind; [apply keeps_db|].
  intros [d|]; [|apply keeps_raise].
  apply keeps_bind; [apply keeps_server_call|]. intros _. apply keeps_gets.
Qed.

Lemma keeps_collection_exists c : keeps base (collection_exists env c).
Proof.
  unfold collection_exists. apply keeps_bind; [apply keeps_list_collections|].
  intros names. apply keeps_ret.
Qed.

Lemma keeps_create_collection c : keeps base (create_collection env c).
Proof.
  unfold create_collection. apply keeps_bind; [apply keeps_db|].
  intros [d|]; [|apply keeps_raise].
  apply keeps_bind; [apply keeps_server_call|]. intros _.
  apply keeps_bind; [apply keeps_gets|]. intros cs.
  destruct (cs !! c); [apply keeps_raise|].
  destruct (Collection_new c); [apply keeps_raise|].
  apply keeps_bind; [by apply keeps_modify_world|]. intros _. apply keeps_ret.
Qed.

Lemma keeps_insert_document c doc : keeps base (insert_document env c doc).
Proof.
  unfold insert_document, insert_one.
  apply keeps_bind; [apply keeps_get_collection|]. intros c'.
  apply keeps_bind; [|intros; apply keeps_ret].
  apply keeps_bind; [apply keeps_server_call|]. intros _.
  apply keeps_bind; [apply keeps_gets|]. intros n.
  apply keeps_bind; [by apply keeps_modify_world|]. intros _. apply keeps_ret.
Qed.

Lemma keeps_delete_documents c q : keeps base (delete_documents env c q).
Proof.
  unfold delete_documents.
  apply keeps_bind; [apply keeps_get_collection|]. intros c'.
  apply keeps_bind; [apply keeps_server_call|]. intros _.
  apply keeps_bind; [apply keeps_gets|]. intros old.
  apply keeps_bind; [|intros; apply keeps_ret].
  apply keeps_modify_world. intros w. by destruct (collections w !! c').
Qed.

Lemma keeps_setup_index ss c i d : keeps base (setup_index env ss c i d).
Proof.
  unfold setup_index, create_vector_search_index.
  apply keeps_bind; [apply keeps_get_collection|]. intros c'.
  apply keeps_bind; [apply keeps_server_call|]. intros _.
  by apply keeps_modify_world.
Qed.

Lemma keeps_generate g text : keeps base (generate env g text).
Proof.
  unfold generate. apply keeps_bind; [by apply quiet_keeps|].
  intros [|item data]; [apply keeps_raise|apply keeps_ret].
Qed.

Lemma keeps_index_document ss content metadata c :
  keeps base (index_document env ss content metadata c).
Proof.
  unfold index_document. apply keeps_bind; [apply keeps_generate|].
  intros e. apply keeps_insert_document.
Qed.

Lemma keeps_process_file ss dc vc f : keeps base (process_file env ss dc vc f).
Proof.
  unfold process_file. apply keeps_bind; [apply keeps_open_read|]. intros raw.
  case_bool_decide;
    repeat first
      [ apply keeps_ret | apply keeps_print | apply keeps_utcnow
      | apply keeps_insert_document | apply keeps_index_document
      | apply keeps_bind | intros ? ].
Qed.

Lemma keeps_index_loop ss dc vc files n :
  keeps base (index_loop env ss dc vc files n).
Proof.
  revert n. induction files as [|f files IH]; intros n; simpl.
  - apply keeps_ret.
  - apply keeps_bind; [|intros b; apply IH].
    apply keeps_try_except; [apply keeps_process_file|]. intros e.
    unfold report_error.
    repeat first [apply keeps_ret | apply keeps_print | apply keeps_bind | intros ?].
Qed.

Lemma keeps_index_documents_from_folder folder ss dc vc :
  keeps base (index_documents_from_folder env folder ss dc vc).
Proof.
  unfold index_documents_from_folder.
  destruct (rglob_txt env folder) as [[|f files]|]; try apply keeps_print.
  apply keeps_bind; [apply keeps_print|]. intros _.
  apply keeps_bind; [apply keeps_index_loop|]. intros n. apply keeps_print.
Qed.

(** Scripts *)

Lemma pkeeps_ret {A} (a : A) : pkeeps base (pret a).
Proof. by intros r. Qed.

Lemma pkeeps_say l : pkeeps base (say l).
Proof. by intros r. Qed.

Lemma pkeeps_lift {A} (m : M A) : keeps base m → pkeeps base (plift m).
Proof.
  intros Hm r Hinv. unfold plift. specialize (Hm _ Hinv).
  by destruct (m (run_state r)).
Qed.

Lemma pkeeps_bind {A B} (m : P A) (k : A → P B) :
  pkeeps base m → (∀ a, pkeeps base (k a)) → pkeeps base (pbind m k).
Proof.
  intros Hm Hk r Hinv. unfold pbind. specialize (Hm r Hinv).
  destruct (m r) as [[a|e] r1]; simpl in *; [by apply Hk|done].
Qed.

Lemma pkeeps_try_except {A} (body : P A) (handler : exn → P A) :
  pkeeps base body → (∀ e, pkeeps base (handler e)) →
  pkeeps base (ptry_except body handler).
Proof.
  intros Hb Hh r Hinv. unfold ptry_except. specialize (Hb r Hinv).
  destruct (body r) as [[a|e] r1]; simpl in *; [done|].
  destruct (is_Exception e); [by apply Hh|done].
Qed.

Lemma pkeeps_say_collections cs : pkeeps base (say_collections cs).
Proof.
  induction cs as [|c cs IH]; simpl; [apply pkeeps_ret|].
  apply pkeeps_bind; [apply pkeeps_say|]. by intros _.
Qed.

Lemma pkeeps_clear_collection c : pkeeps base (clear_collection env c).
Proof.
  unfold clear_collection.
  apply pkeeps_bind; [apply pkeeps_lift, keeps_collection_exists|].
  intros [|]; [|apply pkeeps_ret].
  apply pkeeps_bind; [apply pkeeps_lift, keeps_delete_documents|].
  intros n. apply pkeeps_say.
Qed.

Lemma pkeeps_ensure_collection c : pkeeps base (ensure_collection env c).
Proof.
  unfold ensure_collection.
  apply pkeeps_bind; [apply pkeeps_lift, keeps_collection_exists|].
  intros [|]; simpl; [apply pkeeps_say|].
  apply pkeeps_bind; [apply pkeeps_say|]. intros _.
  apply pkeeps_bind; [apply pkeeps_lift, keeps_create_collection|]. intros _.
  apply pkeeps_say.
Qed.

End HandleFacts.

Section ScriptFacts.
Context (env : Env).

Lemma handles_inv_disconnected base st :
  handles_inv base st → _client (mongo st) = None →
  _db (mongo st) = None ∧ open_handles (world st) = base.
Proof.
  intros (Hdb & Hopen & _) Hc. rewrite Hc in Hopen. split; [by apply Hdb|done].
Qed.

Lemma handles_inv_new_client uri name st :
  NoDup (open_handles (world st)) →
  Forall (λ h, (h < next_handle (world st))%nat) (open_handles (world st)) →
  handles_inv (open_handles (world st)) (new_client uri name st).2.
Proof. intros Hnodup Hfresh. by split_and!. Qed.

Lemma disconnect_clears st : _client (mongo (disconnect st).2) = None.
Proof. unfold disconnect. by destruct (_client (mongo st)) eqn:Hc. Qed.

Lemma ptry_except_raise {A} (body : P A) (handler : exn → P A) r e :
  (∀ e', pnever_raises (handler e')) →
  (ptry_except body handler r).1 = Raise e → is_Exception e = false.
Proof.
  intros Hh. unfold ptry_except.
  destruct (body r) as [[a|e'] r1]; simpl; [done|].
  destruct (is_Exception e') eqn:He'.
  - destruct (Hh e' r1) as [a Ha]. rewrite Ha. done.
  - simpl. by intros [= <-].
Qed.

Lemma pbind_say {B} l (k : unit → P B) r :
  pbind (say l) k r = k tt (MkRun (run_state r) (console r ++ [l])).
Proof. reflexivity. Qed.

Lemma pbind_lift {A B} (m : M A) (k : A → P B) r :
  pbind (plift m) k r
  = match m (run_state r) with
    | (Ok a, st') => k a (MkRun st' (console r))
    | (Raise e, st') => (Raise e, MkRun st' (console r))
    end.
Proof. unfold pbind, plift. by destruct (m (run_state r)) as [[a|e] st']. Qed.

(** A [try ... except Exception ... finally] block whose handler only
    prints and whose last act is [disconnect]. *)
Lemma guarded_block {A} base (body : P A) (handler : exn → P A)
    (final : P unit) r :
  pkeeps base body →
  (∀ e, pkeeps base (handler e)) →
  (∀ e, pnever_raises (handler e)) →
  (∀ r', handles_inv base (run_state r') →
     (final r').1 = Ok tt ∧
     _client (mongo (run_state (final r').2)) = None ∧
     handles_inv base (run_state (final r').2)) →
  handles_inv base (run_state r) →
  _client (mongo (run_state (ptry_finally (ptry_except body handler) final r).2))
    = None ∧
  handles_inv base (run_state (ptry_finally (ptry_except body handler) final r).2) ∧
  (∀ e, (ptry_finally (ptry_except body handler) final r).1 = Raise e →
        is_Exception e = false).
Proof.
  intros Hbody Hhandler Hnever Hfinal Hinv. unfold ptry_finally.
  pose proof (pkeeps_try_except base body handler Hbody Hhandler r Hinv) as Hinv1.
  pose proof (ptry_except_raise body handler r) as Hraise.
  destruct (ptry_except body handler r) as [o r1]. simpl in *.
  destruct (Hfinal r1 Hinv1) as (Hok & Hnone & Hinv2).
  destruct (final r1) as [o2 r2]. simpl in *. subst o2.
  split_and!; simpl; [done..|]. intros e ->. by apply Hraise.
Qed.

Lemma client_main_final base r' :
  handles_inv base (run_state r') →
  ((plift disconnect ;;; say MlDisconnected) r').1 = Ok tt ∧
  _client (mongo (run_state ((plift disconnect ;;; say MlDisconnected) r').2))
    = None ∧
  handles_inv base (run_state ((plift disconnect ;;; say MlDisconnected) r').2).
Proof.
  intros Hinv. unfold pbind, plift, say.
  pose proof (keeps_disconnect base _ Hinv) as Hinv'.
  pose proof (disconnect_clears (run_state r')) as Hnone.
  unfold disconnect in *.
  destruct (_client (mongo (run_state r'))); simpl in *; done.
Qed.

Lemma index_documents_main_final base r' :
  handles_inv base (run_state r') →
  let final := say MlDisconnecting ;;; plift disconnect ;;; say MlDone in
  (final r').1 = Ok tt ∧
  _client (mongo (run_state (final r').2)) = None ∧
  handles_inv base (run_state (final r').2).
Proof.
  intros Hinv final. subst final. unfold pbind, plift, say. simpl.
  pose proof (keeps_disconnect base _ Hinv) as Hinv'.
  pose proof (disconnect_clears (run_state r')) as Hnone.
  unfold disconnect in *.
  destruct (_client (mongo (run_state r'))); simpl in *; done.
Qed.

(** X15. [main] of [client.py] always hands its connection back.
    Whatever the outside does, at the end the client has no cached handle
    and every [MongoClient] the script created is closed: the open ones
    are those that were open before.  An error of class [Exception] is
    printed, not raised. *)
Theorem client_main_closes (cfg : Config) (r : Run) :
  let w := world (run_state r) in
  let out := client_main env cfg r in
  NoDup (open_handles w) →
  Forall (λ h, (h < next_handle w)%nat) (open_handles w) →
  _client (mongo (run_state out.2)) = None ∧
  _db (mongo (run_state out.2)) = None ∧
  open_handles (world (run_state out.2)) = open_handles w ∧
  ∀ e, out.1 = Raise e → is_Exception e = false.
Proof.
  intros w out Hnodup Hfresh. subst out. unfold client_main.
  unfold pbind at 1. unfold plift at 1.
  pose proof (handles_inv_new_client (db_url cfg) (db_name cfg) _ Hnodup Hfresh)
    as Hinv.
  simpl.
  match goal with
  | |- context [ptry_finally (ptry_except ?b ?h) ?f ?r0] =>
      destruct (guarded_block (open_handles w) b h f r0)
        as (Hnone & Hinv' & Hraise)
  end.
  - apply pkeeps_bind; [apply pkeeps_say|]. intros _.
    apply pkeeps_bind; [apply pkeeps_lift, keeps_connect|]. intros _.
    apply pkeeps_bind; [apply pkeeps_lift, keeps_list_collections|].
    intros cs. apply pkeeps_bind; [apply pkeeps_say|]. intros _.
    apply pkeeps_say_collections.
  - intros e. apply pkeeps_say.
  - intros e r'. by exists tt.
  - intros r'. apply client_main_final.
  - exact Hinv.
  - destruct (handles_inv_disconnected _ _ Hinv' Hnone) as [Hdb Hopen].
    done.
Qed.

(** X16. [main] of [index_documents.py] hands its connection back once
    it has entered its [try] block, and not before.  The client is
    connected and the embedding generator made ahead of the [try]:
    if [MongoClient(uri)] raises, that error leaves [main] and no
    [MongoClient] was made; if the driver then refuses the database name,
    or the embedding generator cannot be made for want of an API key, that
    error leaves [main] as well, past the [finally], and the [MongoClient]
    just made stays cached and open.  Otherwise, whatever the outside does
    and with or without [clear_existing], at the end the client has no
    cached handle, every [MongoClient] the script made is closed, and only
    an exception that is not an [Exception] leaves [main]: every other
    error is printed. *)
Theorem index_documents_main_closes (cfg : Config) (clear_existing : bool)
    (r : Run) :
  let w := world (run_state r) in
  let out := index_documents_main env cfg clear_existing r in
  let final := run_state out.2 in
  NoDup (open_handles w) →
  Forall (λ h, (h < next_handle w)%nat) (open_handles w) →
  match MongoClient_new env (db_url cfg) with
  | Some e =>
      out.1 = Raise e ∧
      _client (mongo final) = None ∧
      open_handles (world final) = open_handles w
  | None =>
      match Database_new (db_name cfg),
            AsyncOpenAI_new env (resolve_api_key env (model_api_key cfg)) with
      | Some e, _ | None, Some e =>
          out.1 = Raise e ∧
          _client (mongo final) = Some (next_handle w) ∧
          open_handles (world final) = next_handle w :: open_handles w
      | None, None =>
          _client (mongo final) = None ∧
          _db (mongo final) = None ∧
          open_handles (world final) = open_handles w ∧
          ∀ e, out.1 = Raise e → is_Exception e = false
      end
  end.
Proof.
  intros w out final Hnodup Hfresh. subst final out.
  pose proof (handles_inv_new_client (db_url cfg) (db_name cfg) _ Hnodup Hfresh)
    as Hinv.
  destruct (index_documents_main env cfg clear_existing r) as [o rf] eqn:Hrun.
  unfold index_documents_main in Hrun.
  rewrite !pbind_say, pbind_lift in Hrun. simpl in Hrun.
  rewrite pbind_lift in Hrun. simpl in Hrun.
  pose proof (keeps_connect env (open_handles w) _ Hinv) as Hinv1.
  unfold connect in Hrun, Hinv1. simpl in Hrun, Hinv1.
  destruct (MongoClient_new env (db_url cfg)) as [e|] eqn:Hnew;
    simpl in Hrun, Hinv1.
  { injection Hrun as <- <-. simpl. done. }
  destruct (Database_new (db_name cfg)) as [e|] eqn:Hname;
    simpl in Hrun, Hinv1.
  { injection Hrun as <- <-. simpl. done. }
  rewrite pbind_say, pbind_lift in Hrun.
  unfold EmbeddingGenerator_init in Hrun.
  destruct (AsyncOpenAI_new env _) as [e|] eqn:Hkey; simpl in Hrun.
  { injection Hrun as <- <-. simpl. done. }
  rewrite !pbind_say in Hrun.
  match type of Hrun with
  | ptry_finally (ptry_except ?b ?h) ?f ?r0 = _ =>
      destruct (guarded_block (open_handles w) b h f r0)
        as (Hnone & Hinv' & Hraise)
  end.
  - apply pkeeps_bind.
    { destruct clear_existing; [|apply pkeeps_ret].
      apply pkeeps_bind; [apply pkeeps_say|]. intros _.
      apply pkeeps_bind; [apply pkeeps_clear_collection|]. intros _.
      apply pkeeps_clear_collection. }
    intros _. apply pkeeps_bind; [apply pkeeps_say|]. intros _.
    apply pkeeps_bind; [apply pkeeps_ensure_collection|]. intros _.
    apply pkeeps_bind; [apply pkeeps_ensure_collection|]. intros _.
    apply pkeeps_bind; [apply pkeeps_say|]. intros _.
    apply pkeeps_bind.
    { apply pkeeps_try_except; [|intros e; apply pkeeps_say].
      apply pkeeps_bind; [apply pkeeps_lift, keeps_setup_index|]. intros _.
      apply pkeeps_bind; [apply pkeeps_say|]. intros _. apply pkeeps_say. }
    intros _. apply pkeeps_lift, keeps_index_documents_from_folder.
  - intros e. apply pkeeps_bind; [apply pkeeps_say|]. intros _. apply pkeeps_say.
  - intros e r'. by exists tt.
  - intros r'. apply index_documents_main_final.
  - exact Hinv1.
  - rewrite Hrun in Hnone, Hinv', Hraise. simpl in *.
    destruct (handles_inv_disconnected _ _ Hinv' Hnone) as [Hdb Hopen].
    split_and!; try done.
Qed.

End ScriptFacts.

Lemma client_main_closes_witness :
  _client (mongo (run_state
             (client_main Demo.env DemoExtras.cfg (MkRun DemoStore.state3 [])).2))
    = None ∧
  _db (mongo (run_state
          (client_main Demo.env DemoExtras.cfg (MkRun DemoStore.state3 [])).2))
    = None ∧
  open_handles
    (world (run_state
              (client_main Demo.env DemoExtras.cfg (MkRun DemoStore.state3 [])).2))
    = open_handles (world DemoStore.state3) ∧
  ∀ e, (client_main Demo.env DemoExtras.cfg (MkRun DemoStore.state3 [])).1
       = Raise e → is_Exception e = false.
Proof.
  apply (client_main_closes Demo.env DemoExtras.cfg (MkRun DemoStore.state3 [])).
  - vm_compute. repeat constructor. intros H. inversion H.
  - vm_compute. repeat constructor.
Defined.

(** A run that goes through, and a run with a database name the driver
    refuses: the second leaves its [MongoClient] open. *)
Lemma index_documents_main_closes_witness :
  (_client (mongo (run_state
              (index_documents_main Demo.env DemoExtras.cfg true
                 (MkRun Demo.state0 [])).2)) = None ∧
   _db (mongo (run_state
           (index_documents_main Demo.env DemoExtras.cfg true
              (MkRun Demo.state0 [])).2)) = None ∧
   open_handles
     (world (run_state
               (index_documents_main Demo.env DemoExtras.cfg true
                  (MkRun Demo.state0 [])).2)) = [] ∧
   ∀ e, (index_documents_main Demo.env DemoExtras.cfg true
           (MkRun Demo.state0 [])).1 = Raise e → is_Exception e = false) ∧
  ((index_documents_main Demo.env DemoExtras.cfg_unnamed false
      (MkRun Demo.state0 [])).1
   = Raise (Exn InvalidName "database name cannot be the empty string") ∧
   _client (mongo (run_state
              (index_documents_main Demo.env DemoExtras.cfg_unnamed false
                 (MkRun Demo.state0 [])).2)) = Some 0%nat ∧
   open_handles
     (world (run_state
               (index_documents_main Demo.env DemoExtras.cfg_unnamed false
                  (MkRun Demo.state0 [])).2)) = [0%nat]).
Proof.
  split.
  - apply (index_documents_main_closes Demo.env DemoExtras.cfg true
             (MkRun Demo.state0 [])); constructor.
  - apply (index_documents_main_closes Demo.env DemoExtras.cfg_unnamed false
             (MkRun Demo.state0 [])); constructor.
Defined.
